(** * SpookyMart API gateway (api-gateway/server.js)

    A shallow embedding of the gateway's request handling: the health
    prober and aggregator, the rate limiter mounted on [/api/], the two
    reverse proxies with their path rewrites, the 404 handler and the
    global error handler.

    One request is one call of [Gateway.handle]: it takes the rate-limit
    store and returns the new store together with what the gateway did
    (the response it wrote, and the request it sent upstream, if any).
    Everything the handler reads from outside the process (the clock, the
    network, the payload parser) is an explicit input, the [World]. *)

From Stdlib Require Import QArith_base.
From stdpp Require Import gmap strings list pretty.

Set Warnings "-register-all".

Local Open Scope string_scope.
Local Open Scope Z_scope.

(** ** JavaScript values used by the gateway *)

Module Js.

(** JSON documents as [res.json] serialises them. Object fields keep the
    order of the object literal. *)
Inductive json :=
| JNull
| JBool (b : bool)
| JNum (q : Q)
| JStr (s : string)
| JArr (items : list json)
| JObj (fields : list (string * json)).

Definition JInt (z : Z) : json := JNum (inject_Z z).

(** [o[k]] on a document; [None] stands for [undefined]. *)
Fixpoint assoc {A} (k : string) (l : list (string * A)) : option A :=
  match l with
  | [] => None
  | (k', v) :: l' => if String.eqb k k' then Some v else assoc k l'
  end.

Definition jget (k : string) (j : json) : option json :=
  match j with
  | JObj fields => assoc k fields
  | _ => None
  end.

Definition keys (j : json) : list string :=
  match j with
  | JObj fields => fst <$> fields
  | _ => []
  end.

(** [process.env.X || dflt]: an unset or empty variable is falsy. *)
Definition or_default (v : option string) (dflt : string) : string :=
  match v with
  | Some s => if String.eqb s "" then dflt else s
  | None => dflt
  end.

(** An [Error] object: [status] is the property HTTP-aware libraries
    attach, absent on a plain [Error]. *)
Record Error := {
  errStatus : option Z;
  errCode : option string;
  errErrno : option Z;
  errMessage : string;
  errStack : string;
}.

Definition mkError (code : option string) (msg : string) : Error :=
  {| errStatus := None; errCode := code; errErrno := None;
     errMessage := msg; errStack := "Error: " +:+ msg |}.

(** A field whose value may be [undefined]: [JSON.stringify] leaves it out. *)
Definition opt_field (k : string) (v : option json) : list (string * json) :=
  match v with
  | Some j => [(k, j)]
  | None => []
  end.

(** [v === s] for a value that may be [undefined]. *)
Definition is_str (v : option json) (s : string) : bool :=
  match v with
  | Some (JStr s') => String.eqb s' s
  | _ => false
  end.

(** A settled promise: what [await] sees. *)
Inductive Promise (A : Type) :=
| Resolved (a : A)
| Rejected (e : Error).
Arguments Resolved {A} a.
Arguments Rejected {A} e.

(** [await p; k] inside an async function. *)
Definition await {A B} (p : Promise A) (k : A -> Promise B) : Promise B :=
  match p with
  | Resolved a => k a
  | Rejected e => Rejected e
  end.

(** [try { body } catch (error) { handler }] in an async function. *)
Definition try_catch {A} (body : Promise A) (handler : Error -> Promise A)
  : Promise A :=
  match body with
  | Resolved a => Resolved a
  | Rejected e => handler e
  end.

(** [Promise.all([p, q])]: resolves with both values, rejects as soon as
    one of the two rejects. *)
Definition all2 {A} (p q : Promise A) : Promise (A * A) :=
  match p, q with
  | Resolved a, Resolved b => Resolved (a, b)
  | Rejected e, _ => Rejected e
  | _, Rejected e => Rejected e
  end.

(** *** Strings *)

(** [strip_prefix p s] is the rest of [s] after [p], when [s] starts
    with [p]. *)
Fixpoint strip_prefix (p s : string) : option string :=
  match p, s with
  | EmptyString, _ => Some s
  | String a p', String b s' =>
      if Ascii.eqb a b then strip_prefix p' s' else None
  | String _ _, EmptyString => None
  end.

Definition lower_ascii (c : Ascii.ascii) : Ascii.ascii :=
  let n := Ascii.N_of_ascii c in
  if ((65 <=? n) && (n <=? 90))%N then Ascii.ascii_of_N (n + 32) else c.

Fixpoint toLowerCase (s : string) : string :=
  match s with
  | EmptyString => EmptyString
  | String c s' => String (lower_ascii c) (toLowerCase s')
  end.

Fixpoint drop_trailing_slash (s : string) : string :=
  match s with
  | EmptyString => EmptyString
  | String c rest =>
      if String.eqb rest "" && String.eqb (String c "") "/" then ""
      else String c (drop_trailing_slash rest)
  end.

Definition starts_with_slash (s : string) : bool :=
  match strip_prefix "/" s with
  | Some _ => true
  | None => false
  end.

End Js.

Import Js.

(** ** Configuration (server.js, lines 18-25 and 93-95) *)

Module Config.

(** The environment variables the gateway reads. [RATE_LIMIT] is kept as
    the number its text denotes. *)
Record Env := {
  env_NODE_ENV : option string;
  env_PRODUCT_SERVICE_URL : option string;
  env_ORDER_SERVICE_URL : option string;
  env_RATE_LIMIT : option Z;
}.

Record t := {
  NODE_ENV : string;
  PRODUCT_SERVICE_URL : string;
  ORDER_SERVICE_URL : string;
  windowMs : Z;
  max : Z;
}.

Definition of_env (e : Env) : t :=
  {| NODE_ENV := or_default (env_NODE_ENV e) "development";
     PRODUCT_SERVICE_URL :=
       or_default (env_PRODUCT_SERVICE_URL e) "http://localhost:3001";
     ORDER_SERVICE_URL :=
       or_default (env_ORDER_SERVICE_URL e) "http://localhost:3002";
     windowMs := 15 * 60 * 1000;
     max := match env_RATE_LIMIT e with Some n => n | None => 100 end |}.

Definition no_env : Env :=
  {| env_NODE_ENV := None; env_PRODUCT_SERVICE_URL := None;
     env_ORDER_SERVICE_URL := None; env_RATE_LIMIT := None |}.

Definition default : t := of_env no_env.

Definition production : t :=
  of_env {| env_NODE_ENV := Some "production";
            env_PRODUCT_SERVICE_URL := None;
            env_ORDER_SERVICE_URL := None; env_RATE_LIMIT := None |}.

End Config.

(** ** The HTTP client *)

Module Axios.

(** What the network does with one GET: a reply after [elapsed]
    milliseconds, a failure to connect (refused, unreachable host), or
    nothing at all. *)
Inductive NetworkOutcome :=
| Replied (elapsed : Z) (status : Z) (headers : list (string * string))
    (data : json)
| ConnectFailed (code : string) (message : string)
| Silent.

Record Response := {
  status : Z;
  headers : list (string * string);
  data : json;
}.

Definition timeout_error (timeout : Z) : Error :=
  mkError (Some "ECONNABORTED")
    ("timeout of " +:+ pretty timeout +:+ "ms exceeded").

Definition status_error (status : Z) : Error :=
  mkError
    (if (400 <=? status) && (status <? 500) then Some "ERR_BAD_REQUEST"
     else if (500 <=? status) && (status <? 600) then Some "ERR_BAD_RESPONSE"
     else None)
    ("Request failed with status code " +:+ pretty status).

(** Modelled from the spec: the axios package is not under src/. Section
    4.1 gives the contract of one probe: success is a response that
    arrives within the timeout and signals success (a 2xx status, the
    client's default [validateStatus]); a timeout, a refused connection
    and a non-success status all reject the promise [axios.get] returns. *)
Definition get (timeout : Z) (net : NetworkOutcome) : Promise Response :=
  match net with
  | Replied elapsed st hs d =>
      if timeout <=? elapsed then Rejected (timeout_error timeout)
      else if (200 <=? st) && (st <? 300)
      then Resolved {| status := st; headers := hs; data := d |}
      else Rejected (status_error st)
  | ConnectFailed code msg => Rejected (mkError (Some code) msg)
  | Silent => Rejected (timeout_error timeout)
  end.

(** The probe outcomes of section 4.1, as a decidable predicate on the
    network: a timely reply with a success status. *)
Definition timely_success (timeout : Z) (net : NetworkOutcome) : bool :=
  match net with
  | Replied elapsed st _ _ =>
      (elapsed <? timeout) && (200 <=? st) && (st <? 300)
  | _ => false
  end.

End Axios.

(** ** The rate limiter *)

Module RateLimit.

(** One window per client identity (section 3). *)
Record RateLimitWindow := {
  windowStart : Z;
  count : Z;
}.

Inductive Decision := Allow | Reject.

(** Modelled from the spec: the express-rate-limit package, which holds
    the counting algorithm behind [rateLimit({windowMs, max, ...})], is
    not under src/. Section 4.3: if no window exists or the current window
    has expired (elapsed >= window length), start a new window with
    count = 1 and allow; otherwise increment count, and reject if count
    exceeds the ceiling, allow otherwise. *)
Definition step (windowMs max : Z) (now : Z) (key : string)
    (store : gmap string RateLimitWindow)
  : gmap string RateLimitWindow * Decision :=
  match store !! key with
  | Some w =>
      if windowMs <=? now - windowStart w
      then (<[key := {| windowStart := now; count := 1 |}]> store, Allow)
      else
        let c := count w + 1 in
        (<[key := {| windowStart := windowStart w; count := c |}]> store,
         if max <? c then Reject else Allow)
  | None => (<[key := {| windowStart := now; count := 1 |}]> store, Allow)
  end.

(** The [message] option (server.js, lines 96-100). *)
Definition message : json :=
  JObj [("error", JStr "Too Many Requests");
        ("message", JStr "Rate limit exceeded. Please try again later.");
        ("retryAfter", JStr "15 minutes")].

(** A client has a live window at [now]. *)
Definition live (windowMs now : Z) (w : RateLimitWindow) : Prop :=
  now - windowStart w < windowMs.

End RateLimit.

(** ** Routing *)

Module Express.

(** The request as the middleware chain sees it. [contentType] is the
    media type the Content-Type header names, in lower case and without
    its parameters (a charset, a boundary), which is what the body parsers
    compare. [stream] is the part of the request body nobody has read yet
    ([None]: the request announces no body); [body] is [req.body];
    [_body] is the flag the body parsers set once one of them has read the
    stream. *)
Record Request := {
  method : string;
  originalUrl : string;
  ip : string;
  contentType : string;
  stream : option string;
  body : option json;
  _body : bool;
}.

(** The path of a request target: everything before the query string. *)
Fixpoint pathname (url : string) : string :=
  match url with
  | EmptyString => EmptyString
  | String c rest =>
      if Ascii.eqb c (Ascii.ascii_of_N 63) then EmptyString
      else String c (pathname rest)
  end.

(** Modelled from the spec: the express package is not under src/.
    Section 6 lists the routes. server.js enables neither strict nor
    case-sensitive routing, so with the framework's defaults a route
    registered with [app.get(route, ...)] serves the requests whose path
    is the route, with or without a trailing slash, compared without
    regard to letter case. *)
Definition route_match (route path : string) : bool :=
  let p := toLowerCase path in
  if String.eqb route "/" then String.eqb p "/"
  else String.eqb p route || String.eqb p (route +:+ "/").

(** Modelled from the spec: the express package is not under src/.
    Section 4.4: rules match by path prefix. Middleware mounted with
    [app.use(mount, ...)] serves the paths that start with the mount point
    and end there or continue with a slash; as for routes, letter case is
    not regarded. *)
Definition mount_match (mount path : string) : bool :=
  match strip_prefix (drop_trailing_slash mount) (toLowerCase path) with
  | Some rest => String.eqb rest "" || starts_with_slash rest
  | None => false
  end.

(** [app.get] routes also serve HEAD. *)
Definition handles_get (m : string) : bool :=
  String.eqb m "GET" || String.eqb m "HEAD".

(** What the gateway does with the response object. *)
Inductive Reply :=
| Json (statusCode : Z) (payload : json)
| Ended (statusCode : Z)
| Relay (statusCode : Z) (payload : string)
| NoReply.

Definition statusOf (r : Reply) : option Z :=
  match r with
  | Json c _ | Ended c | Relay c _ => Some c
  | NoReply => None
  end.

Definition bodyOf (r : Reply) : option json :=
  match r with
  | Json _ b => Some b
  | _ => None
  end.

(** What a body parser makes of the payload it reads. *)
Inductive ParseOutcome :=
| ParseOk (v : json)
| ParseError (e : Error).

(** Modelled from the spec: the body-parser code behind [express.json]
    and [express.urlencoded] is not under src/. A parser leaves alone a
    request another parser has read, a request without a body and a
    request of another media type; otherwise it reads the whole stream
    and either stores the parsed value in [req.body] or fails. *)
Definition bodyParser (mediaType : string) (parse : ParseOutcome)
    (req : Request) : Request + Error :=
  if _body req then inl req
  else
    let req := {| method := method req; originalUrl := originalUrl req;
                  ip := ip req; contentType := contentType req;
                  stream := stream req;
                  body := Some (default (JObj []) (body req));
                  _body := false |} in
    match stream req with
    | None => inl req
    | Some _ =>
        if String.eqb (contentType req) mediaType then
          match parse with
          | ParseOk v =>
              inl {| method := method req; originalUrl := originalUrl req;
                     ip := ip req; contentType := contentType req;
                     stream := Some ""; body := Some v; _body := true |}
          | ParseError e => inr e
          end
        else inl req
    end.

End Express.

(** ** The reverse proxy *)

Module Proxy.

Import Express.

(** What the upstream does with a forwarded request: a response, a
    transport error (connection refused or reset, connect timeout), or
    silence. *)
Inductive UpstreamOutcome :=
| UpReplied (statusCode : Z) (payload : string)
| UpFailed (err : Error)
| UpSilent.

(** The request the proxy issues: [pUrl] is the path and query string of
    the request line sent to the server of [pTarget]. *)
Record ProxyRequest := {
  pTarget : string;
  pMethod : string;
  pUrl : string;
  pBody : string;
}.

Record Options := {
  target : string;
  pathRewrite : list (string * string);
  onError : Error -> Reply;
}.

(** One [pathRewrite] entry, [pattern: replacement]. Both patterns of
    server.js are a [^] followed by literal text: the rule applies to a
    path that starts with that text and replaces it. *)
Definition rewrite_rule (rule : string * string) (path : string)
  : option string :=
  match strip_prefix "^" (fst rule) with
  | Some literal =>
      match strip_prefix literal path with
      | Some rest => Some (snd rule +:+ rest)
      | None => None
      end
  | None => None
  end.

(** Modelled from the spec: the http-proxy-middleware package is not
    under src/. Section 4.4: the path is rewritten per the rule. The
    first entry that applies rewrites the path; a path no entry applies
    to is forwarded as it is. *)
Fixpoint rewritePath (rules : list (string * string)) (path : string)
  : string :=
  match rules with
  | [] => path
  | rule :: rules' =>
      match rewrite_rule rule path with
      | Some path' => path'
      | None => rewritePath rules' path
      end
  end.

(** What handling one request amounts to: the reply, and the request sent
    upstream (if any). *)
Record Result := {
  reply : Reply;
  forwarded : option ProxyRequest;
}.

Definition respond (r : Reply) : Result :=
  {| reply := r; forwarded := None |}.

(** The query string of a request target, question mark included: what
    follows the path. *)
Fixpoint search (url : string) : string :=
  match url with
  | EmptyString => EmptyString
  | String c rest =>
      if Ascii.eqb c (Ascii.ascii_of_N 63) then url else search rest
  end.

(** Modelled from the spec: the proxy reads the path to send with Node's
    [url.parse(req.url).path], which is not under src/. Section 4.4 has
    the path forwarded, query string included; the parser hands it over
    with every back slash in front of the query string turned into a
    slash. Request targets carry no fragment. *)
Fixpoint parsedPath (url : string) : string :=
  match url with
  | EmptyString => EmptyString
  | String c rest =>
      if Ascii.eqb c (Ascii.ascii_of_N 63) then url
      else String (if Ascii.eqb c (Ascii.ascii_of_N 92)
                   then Ascii.ascii_of_N 47 else c)
                  (parsedPath rest)
  end.

(** [s.replace(/\/+/g, '/')]: every run of slashes becomes one slash. *)
Fixpoint squeeze (s : string) : string :=
  match s with
  | EmptyString => EmptyString
  | String c rest =>
      if Ascii.eqb c (Ascii.ascii_of_N 47) && starts_with_slash rest
      then squeeze rest
      else String c (squeeze rest)
  end.

(** [s.replace(pattern, replacement)] with a text pattern: the first
    occurrence is replaced. *)
Fixpoint replace_first (pattern replacement s : string) : string :=
  match strip_prefix pattern s with
  | Some rest => replacement +:+ rest
  | None =>
      match s with
      | EmptyString => EmptyString
      | String c s' => String c (replace_first pattern replacement s')
      end
  end.

(** Modelled from the spec: the http-proxy package, on which
    http-proxy-middleware rests, is not under src/. Section 4.4: the
    request goes to the target's base URL. The path sent is the target's
    own path joined by a slash with the request's path (an empty one is
    left out); in the joined path runs of slashes collapse to one slash
    and a scheme keeps its two slashes; the query string is added back
    untouched. *)
Definition urlJoin (targetPath url : string) : string :=
  let last := pathname url in
  let joined :=
    if String.eqb targetPath "" then last
    else if String.eqb last "" then targetPath
    else targetPath +:+ "/" +:+ last in
  replace_first "https:/" "https://"
    (replace_first "http:/" "http://" (squeeze joined))
  +:+ search url.

(** What follows the first occurrence of [pattern] in [s]. *)
Fixpoint after (pattern s : string) : option string :=
  match strip_prefix pattern s with
  | Some rest => Some rest
  | None =>
      match s with
      | EmptyString => None
      | String _ s' => after pattern s'
      end
  end.

(** What follows the host and port of a URL. *)
Fixpoint dropAuthority (s : string) : string :=
  match s with
  | EmptyString => EmptyString
  | String c rest =>
      if Ascii.eqb c (Ascii.ascii_of_N 47) || Ascii.eqb c (Ascii.ascii_of_N 63)
      then s else dropAuthority rest
  end.

(** Modelled from the spec: the target is read with Node's [url.parse],
    which is not under src/. Section 3: an upstream is given by its base
    URL, [scheme://host:port] and possibly a path. The path of a base URL
    is what follows host and port, and [/] when nothing does. *)
Definition urlPath (target : string) : string :=
  match after "://" target with
  | Some rest =>
      let p := dropAuthority rest in
      if starts_with_slash p then p else "/" +:+ p
  | None => "/"
  end.

(** The path and query string sent to [target] for the request target
    [url]. *)
Definition outgoingPath (target url : string) : string :=
  urlJoin (urlPath target) (parsedPath url).

(** Modelled from the spec: the http-proxy-middleware package is not
    under src/. Section 4.4: the request is forwarded to the target's base
    URL with its method and with the rewritten path (the rewrite is
    applied to the full original URL, mount point included, and the proxy
    then joins the result to the target as [outgoingPath] tells); the
    upstream's response is relayed; an upstream that cannot be reached
    goes to [onError]. The body sent is what is left of the request
    stream. No timeout is configured: a silent upstream leaves the request
    unanswered. *)
Definition createProxyMiddleware (opts : Options) (req : Request)
    (up : UpstreamOutcome) : Result :=
  {| reply :=
       match up with
       | UpReplied c b => Relay c b
       | UpFailed e => onError opts e
       | UpSilent => NoReply
       end;
     forwarded :=
       Some {| pTarget := target opts;
               pMethod := method req;
               pUrl := outgoingPath (target opts)
                         (rewritePath (pathRewrite opts) (originalUrl req));
               pBody := default "" (stream req) |} |}.

End Proxy.

(** ** The gateway (server.js) *)

Module Gateway.

Import Express Proxy.

(** Everything one request reads from outside the process. *)
Record World := {
  now : Z;
  timestamp : string;
  lastCheckedProduct : string;
  lastCheckedOrder : string;
  uptime : Q;
  parse : ParseOutcome;
  productNet : Axios.NetworkOutcome;
  orderNet : Axios.NetworkOutcome;
  upstream : UpstreamOutcome;
}.

(** [healthCheck] (lines 108-127); [clock] is the reading of
    [new Date().toISOString()]. *)
Definition healthCheck (net : Axios.NetworkOutcome) (clock : string)
    (serviceUrl serviceName : string) : Promise json :=
  try_catch
    (await (Axios.get 5000 net) (fun response =>
       Resolved
         (JObj [("name", JStr serviceName);
                ("status", JStr "healthy");
                ("url", JStr serviceUrl);
                ("responseTime",
                 JStr (or_default
                         (assoc "x-response-time" (Axios.headers response))
                         "N/A"));
                ("lastChecked", JStr clock)])))
    (fun error =>
       Resolved
         (JObj [("name", JStr serviceName);
                ("status", JStr "unhealthy");
                ("url", JStr serviceUrl);
                ("error", JStr (errMessage error));
                ("lastChecked", JStr clock)])).

(** [app.get('/health')] (lines 130-165). *)
Definition health (cfg : Config.t) (w : World) : Promise Reply :=
  try_catch
    (await
       (all2
          (healthCheck (productNet w) (lastCheckedProduct w)
             (Config.PRODUCT_SERVICE_URL cfg) "Product Service")
          (healthCheck (orderNet w) (lastCheckedOrder w)
             (Config.ORDER_SERVICE_URL cfg) "Order Service"))
       (fun '(productHealth, orderHealth) =>
          let overallHealth :=
            if is_str (jget "status" productHealth) "healthy"
               && is_str (jget "status" orderHealth) "healthy"
            then "healthy" else "degraded" in
          let healthStatus :=
            JObj [("status", JStr overallHealth);
                  ("service", JStr "spookymart-api-gateway");
                  ("version", JStr "1.0.0");
                  ("timestamp", JStr (timestamp w));
                  ("environment", JStr (Config.NODE_ENV cfg));
                  ("uptime", JNum (uptime w));
                  ("services",
                   JObj [("product", productHealth);
                         ("order", orderHealth)])] in
          let statusCode :=
            if String.eqb overallHealth "healthy" then 200 else 503 in
          Resolved (Json statusCode healthStatus)))
    (fun error =>
       Resolved
         (Json 503
            (JObj [("status", JStr "unhealthy");
                   ("service", JStr "spookymart-api-gateway");
                   ("version", JStr "1.0.0");
                   ("timestamp", JStr (timestamp w));
                   ("error", JStr (errMessage error))]))).

(** [app.get('/api/debug/connectivity')] (lines 168-214). *)
Definition debugConnectivity (cfg : Config.t) (w : World) : Promise Reply :=
  try_catch
    (await (Axios.get 10000 (orderNet w)) (fun orderResponse =>
       Resolved
         (Json 200
            (JObj [("debug", JStr "connectivity-test");
                   ("timestamp", JStr (timestamp w));
                   ("tests",
                    JObj [("order_service",
                           JObj [("url", JStr (Config.ORDER_SERVICE_URL cfg));
                                 ("status", JStr "success");
                                 ("response_code",
                                  JInt (Axios.status orderResponse));
                                 ("response_data",
                                  Axios.data orderResponse)])])]))))
    (fun error =>
       Resolved
         (Json 503
            (JObj [("debug", JStr "connectivity-test");
                   ("timestamp", JStr (timestamp w));
                   ("tests",
                    JObj [("order_service",
                           JObj ([("url", JStr (Config.ORDER_SERVICE_URL cfg));
                                  ("status", JStr "failed");
                                  ("error", JStr (errMessage error))]
                                 ++ opt_field "error_code"
                                      (JStr <$> errCode error)
                                 ++ opt_field "error_errno"
                                      (JInt <$> errErrno error)))])]))).

(** [app.get('/')] (lines 217-253). *)
Definition info (cfg : Config.t) : Reply :=
  Json 200
    (JObj [("service", JStr "SpookyMart API Gateway");
           ("version", JStr "1.0.0");
           ("description",
            JStr "Central API Gateway for SpookyMart Halloween Ecommerce Platform");
           ("environment", JStr (Config.NODE_ENV cfg));
           ("endpoints",
            JObj [("health", JStr "GET /health");
                  ("products",
                   JObj [("base", JStr "/api/products");
                         ("list", JStr "GET /api/products");
                         ("get", JStr "GET /api/products/:id");
                         ("create", JStr "POST /api/products");
                         ("update", JStr "PUT /api/products/:id");
                         ("delete", JStr "DELETE /api/products/:id");
                         ("categories",
                          JStr "GET /api/products/categories/list")]);
                  ("orders",
                   JObj [("base", JStr "/api/orders");
                         ("list", JStr "GET /api/orders");
                         ("get", JStr "GET /api/orders/:id");
                         ("create", JStr "POST /api/orders");
                         ("update", JStr "PUT /api/orders/:id");
                         ("cancel", JStr "POST /api/orders/:id/cancel");
                         ("status", JStr "GET /api/orders/:id/status")])]);
           ("services",
            JObj [("product", JStr (Config.PRODUCT_SERVICE_URL cfg));
                  ("order", JStr (Config.ORDER_SERVICE_URL cfg))]);
           ("documentation",
            JObj [("product_service",
                   JStr (Config.PRODUCT_SERVICE_URL cfg +:+ "/"));
                  ("order_service",
                   JStr (Config.ORDER_SERVICE_URL cfg +:+ "/docs"))])]).

(** [productProxy] (lines 256-276). *)
Definition productProxy (cfg : Config.t) : Options :=
  {| target := Config.PRODUCT_SERVICE_URL cfg;
     pathRewrite := [("^/api/products", "/api/products")];
     onError := fun err =>
       Json 503
         (JObj [("error", JStr "Service Unavailable");
                ("message", JStr "Product Service is currently unavailable");
                ("service", JStr "product-service")]) |}.

(** [orderProxy] (lines 279-299). *)
Definition orderProxy (cfg : Config.t) : Options :=
  {| target := Config.ORDER_SERVICE_URL cfg;
     pathRewrite := [("^/api/orders", "/api/orders/")];
     onError := fun err =>
       Json 503
         (JObj [("error", JStr "Service Unavailable");
                ("message", JStr "Order Service is currently unavailable");
                ("service", JStr "order-service")]) |}.

Definition availableEndpoints : list string :=
  ["GET /"; "GET /health"; "GET /api/products"; "POST /api/products";
   "GET /api/orders"; "POST /api/orders"].

(** The 404 handler (lines 321-334). *)
Definition notFound (req : Request) : Reply :=
  Json 404
    (JObj [("error", JStr "Not Found");
           ("message",
            JStr ("Route " +:+ method req +:+ " " +:+ originalUrl req
                  +:+ " not found"));
           ("availableEndpoints", JArr (JStr <$> availableEndpoints))]).

(** The global error handler (lines 337-345). [err.status || 500]: a
    missing or zero status is falsy. *)
Definition errorHandler (cfg : Config.t) (err : Error) : Reply :=
  let production := String.eqb (Config.NODE_ENV cfg) "production" in
  Json (match errStatus err with
        | Some st => if st =? 0 then 500 else st
        | None => 500
        end)
    (JObj ([("error", JStr "Internal Server Error");
            ("message",
             JStr (if production then "Something went wrong"
                   else errMessage err))]
           ++ (if negb production then [("stack", JStr (errStack err))]
               else []))).

(** An async handler that rejects leaves the request unanswered. *)
Definition settle (p : Promise Reply) : Reply :=
  match p with
  | Resolved r => r
  | Rejected _ => NoReply
  end.

(** The routes in registration order (lines 130, 168, 217, 302-318, 321).
    The middleware of line 302 only logs and calls [next()]. *)
Definition routes (cfg : Config.t) (w : World) (req : Request) : Result :=
  let path := pathname (originalUrl req) in
  if handles_get (method req) && route_match "/health" path
  then respond (settle (health cfg w))
  else if handles_get (method req)
          && route_match "/api/debug/connectivity" path
  then respond (settle (debugConnectivity cfg w))
  else if handles_get (method req) && route_match "/" path
  then respond (info cfg)
  else if mount_match "/api/products" path
  then createProxyMiddleware (productProxy cfg) req (upstream w)
  else if mount_match "/api/orders" path
  then createProxyMiddleware (orderProxy cfg) req (upstream w)
  else respond (notFound req).

(** The outcome of the middleware registered before the routes
    (lines 59-90). *)
Inductive Pre :=
| PreNext (req : Request)
| PreEnded (r : Reply)
| PreFailed (e : Error).

(** Modelled from the spec: the helmet, cors, compression and morgan
    packages are not under src/. Section 4.5: security headers, CORS
    policy, body parsing and access logging run before the rate limiter.
    Of these only two do more than decorate the exchange: [cors] answers a
    preflight (OPTIONS) request itself, and the body parsers read the
    request stream. *)
Definition pre_routing (w : World) (req : Request) : Pre :=
  if String.eqb (method req) "OPTIONS" then PreEnded (Ended 204)
  else
    match bodyParser "application/json" (parse w) req with
    | inr e => PreFailed e
    | inl req1 =>
        match bodyParser "application/x-www-form-urlencoded" (parse w) req1
        with
        | inr e => PreFailed e
        | inl req2 => PreNext req2
        end
    end.

(** [app.use('/api/', limiter)] (lines 93-105), keyed by [req.ip]. *)
Definition limiter (cfg : Config.t) (w : World) (req : Request)
    (store : gmap string RateLimit.RateLimitWindow)
  : gmap string RateLimit.RateLimitWindow * RateLimit.Decision :=
  if mount_match "/api/" (pathname (originalUrl req))
  then RateLimit.step (Config.windowMs cfg) (Config.max cfg) (now w)
         (ip req) store
  else (store, RateLimit.Allow).

(** One request through the whole chain. An error raised on the way goes
    to the global error handler. *)
Definition handle (cfg : Config.t) (w : World) (req : Request)
    (store : gmap string RateLimit.RateLimitWindow)
  : gmap string RateLimit.RateLimitWindow * Result :=
  match pre_routing w req with
  | PreEnded r => (store, respond r)
  | PreFailed e => (store, respond (errorHandler cfg e))
  | PreNext req' =>
      match limiter cfg w req' store with
      | (store', RateLimit.Reject) =>
          (store', respond (Json 429 RateLimit.message))
      | (store', RateLimit.Allow) => (store', routes cfg w req')
      end
  end.

(** A sequence of requests, served one after the other. *)
Fixpoint run (cfg : Config.t) (events : list (World * Request))
    (store : gmap string RateLimit.RateLimitWindow)
  : gmap string RateLimit.RateLimitWindow * list Result :=
  match events with
  | [] => (store, [])
  | (w, req) :: events' =>
      let '(store1, r) := handle cfg w req store in
      let '(store2, rs) := run cfg events' store1 in
      (store2, r :: rs)
  end.

(** A plain request: no body, nothing parsed yet. *)
Definition request (m url client : string) : Request :=
  {| method := m; originalUrl := url; ip := client; contentType := "";
     stream := None; body := None; _body := false |}.

(** A request carrying a JSON payload. *)
Definition json_request (m url client payload : string) : Request :=
  {| method := m; originalUrl := url; ip := client;
     contentType := "application/json";
     stream := Some payload; body := None; _body := false |}.

(** A world in which every upstream is up and answers at once. *)
Definition calm (t : Z) : World :=
  {| now := t; timestamp := "2025-10-31T00:00:00.000Z";
     lastCheckedProduct := "2025-10-31T00:00:00.000Z";
     lastCheckedOrder := "2025-10-31T00:00:00.000Z";
     uptime := inject_Z 1;
     parse := ParseOk (JObj []);
     productNet := Axios.Replied 3 200 [] (JObj []);
     orderNet := Axios.Replied 3 200 [] (JObj []);
     upstream := UpReplied 200 "{}" |}.

(** The same, with the order upstream refusing connections. *)
Definition order_down (t : Z) : World :=
  {| now := t; timestamp := "2025-10-31T00:00:00.000Z";
     lastCheckedProduct := "2025-10-31T00:00:00.000Z";
     lastCheckedOrder := "2025-10-31T00:00:00.000Z";
     uptime := inject_Z 1;
     parse := ParseOk (JObj []);
     productNet := Axios.Replied 3 200 [] (JObj []);
     orderNet :=
       Axios.ConnectFailed "ECONNREFUSED"
         "connect ECONNREFUSED 127.0.0.1:3002";
     upstream :=
       UpFailed (mkError (Some "ECONNREFUSED")
                   "connect ECONNREFUSED 127.0.0.1:3002") |}.

(** A world in which the upstream takes the forwarded request and never
    answers it. *)
Definition silent (t : Z) : World :=
  {| now := t; timestamp := "2025-10-31T00:00:00.000Z";
     lastCheckedProduct := "2025-10-31T00:00:00.000Z";
     lastCheckedOrder := "2025-10-31T00:00:00.000Z";
     uptime := inject_Z 1;
     parse := ParseOk (JObj []);
     productNet := Axios.Silent;
     orderNet := Axios.Silent;
     upstream := UpSilent |}.

(** A world in which the body parser rejects the payload with [err]. *)
Definition malformed (err : Error) : World :=
  {| now := 0; timestamp := "2025-10-31T00:00:00.000Z";
     lastCheckedProduct := "2025-10-31T00:00:00.000Z";
     lastCheckedOrder := "2025-10-31T00:00:00.000Z";
     uptime := inject_Z 1;
     parse := ParseError err;
     productNet := Axios.Replied 3 200 [] (JObj []);
     orderNet := Axios.Replied 3 200 [] (JObj []);
     upstream := UpReplied 200 "{}" |}.

(** The upstreams a health document reports as failed: the entries of
    [services] whose report has status unhealthy and carries an error. *)
Definition unhealthy_services (payload : json) : list string :=
  match jget "services" payload with
  | Some (JObj services) =>
      fst <$> List.filter
        (fun kv => is_str (jget "status" (snd kv)) "unhealthy"
                   && bool_decide (is_Some (jget "error" (snd kv))))
        services
  | _ => []
  end.


(** The client has no window at [t], or one that has expired by then. *)
Definition no_live_window (cfg : Config.t) (client : string) (t : Z)
    (store : gmap string RateLimit.RateLimitWindow) : Prop :=
  match store !! client with
  | Some win => Config.windowMs cfg ≤ t - RateLimit.windowStart win
  | None => True
  end.

(** The answer to a request over the limit. *)
Definition tooManyRequests : Result :=
  respond (Json 429 RateLimit.message).

(** A gateway that allows two requests per window. *)
Definition two_per_window : Config.t :=
  Config.of_env
    {| Config.env_NODE_ENV := None; Config.env_PRODUCT_SERVICE_URL := None;
       Config.env_ORDER_SERVICE_URL := None;
       Config.env_RATE_LIMIT := Some 2 |}.

(** The path is served by one of the two proxies. *)
Definition proxied (path : string) : bool :=
  mount_match "/api/products" path || mount_match "/api/orders" path.

(** The request matches one of the gateway's own routes. *)
Definition own_route (req : Request) : bool :=
  let path := pathname (originalUrl req) in
  handles_get (method req)
  && (route_match "/health" path
      || route_match "/api/debug/connectivity" path
      || route_match "/" path).

End Gateway.

(** ** The product service (product-service/models/product.js and
    product-service/routes/products.js) *)

Module ProductService.

(** A product as [Product.toJSON] writes it to the data file. A price is
    the rational number its double denotes. *)
Record Product := {
  id : string;
  name : string;
  description : string;
  price : Q;
  category : string;
  stock : Z;
  imageUrl : string;
  tags : list string;
  isActive : bool;
  createdAt : string;
  updatedAt : string;
}.

(** [isInStock()] *)
Definition isInStock (p : Product) : bool :=
  (0 <? stock p) && isActive p.

(** [reduceStock(quantity)]; [clock] is [new Date().toISOString()]. The
    left summand is the updated product, the right one the error thrown. *)
Definition reduceStock (quantity : Z) (clock : string) (p : Product)
  : Product + Error :=
  if stock p <? quantity then inr (mkError None "Insufficient stock")
  else
    inl {| id := id p; name := name p; description := description p;
           price := price p; category := category p;
           stock := stock p - quantity;
           imageUrl := imageUrl p; tags := tags p; isActive := isActive p;
           createdAt := createdAt p; updatedAt := clock |}.

(** A number as a query string denotes it: [parseFloat] may give NaN or
    an infinity. *)
Inductive Float :=
| NaN
| Infinity (negative : bool)
| Finite (q : Q).

(** [price >= bound] and [price <= bound] for a finite price. *)
Definition ge (x : Q) (bound : Float) : bool :=
  match bound with
  | NaN => false
  | Infinity negative => negative
  | Finite q => Qle_bool q x
  end.

Definition le (x : Q) (bound : Float) : bool :=
  match bound with
  | NaN => false
  | Infinity negative => negb negative
  | Finite q => Qle_bool x q
  end.

(** The built-in functions the routes apply to request text. [parseInt]
    gives [None] for NaN. *)
Record Builtins := {
  parseFloat : string -> Float;
  parseInt : string -> option Z;
  toLowerCase : string -> string;
}.

(** [if (s)] for a query parameter: absent and empty are falsy. *)
Definition truthy (s : option string) : bool :=
  match s with
  | Some text => negb (String.eqb text "")
  | None => false
  end.

(** An index of [Array.prototype.slice]: NaN counts as 0, a negative index
    counts from the end, and both ends are clamped to the array. *)
Definition relative_index (len : Z) (i : option Z) : Z :=
  match i with
  | None => 0
  | Some k => if k <? 0 then Z.max (len + k) 0 else Z.min k len
  end.

Definition slice {A} (l : list A) (first final : option Z) : list A :=
  let len := Z.of_nat (length l) in
  let k := relative_index len first in
  take (Z.to_nat (relative_index len final - k)) (drop (Z.to_nat k) l).

(** [a + b] on numbers that may be NaN. *)
Definition plus (a b : option Z) : option Z :=
  match a, b with
  | Some x, Some y => Some (x + y)
  | _, _ => None
  end.

(** The query parameters of the list route. *)
Module Query.
Record t := {
  category : option string;
  minPrice : option string;
  maxPrice : option string;
  inStock : option string;
  limit : option string;
  offset : option string;
}.
End Query.

(** What a route answers. *)
Inductive Reply :=
| ProductPage (products : list Product) (total : Z) (limit offset : option Z)
    (hasMore : bool)
| ProductFound (product : Product)
| ProductCreated (product : Product)
| ProductDeleted
| Failure (status : Z) (error message : string).

(** The data file: the product list it holds, or [None] when it cannot be
    read or is not JSON. *)
Definition readProducts (file : option (list Product)) : list Product :=
  default [] file.

(** What [fs.writeFile] does: it replaces the file, or fails and leaves
    the file in the state [leftover]. *)
Inductive WriteOutcome :=
| Written
| WriteFailed (leftover : option (list Product)).

Definition writeProducts (w : WriteOutcome) (products : list Product)
  : option (list Product) * bool :=
  match w with
  | Written => (Some products, true)
  | WriteFailed leftover => (leftover, false)
  end.

(** The filters of [GET /], in the order the route applies them. *)
Definition byCategory (query : Query.t) (products : list Product)
  : list Product :=
  if truthy (Query.category query)
  then List.filter
         (fun p => String.eqb (category p) (default "" (Query.category query)))
         products
  else products.

Definition byMinPrice (js : Builtins) (query : Query.t)
    (products : list Product) : list Product :=
  if truthy (Query.minPrice query)
  then List.filter
         (fun p => ge (price p)
                     (parseFloat js (default "" (Query.minPrice query))))
         products
  else products.

Definition byMaxPrice (js : Builtins) (query : Query.t)
    (products : list Product) : list Product :=
  if truthy (Query.maxPrice query)
  then List.filter
         (fun p => le (price p)
                     (parseFloat js (default "" (Query.maxPrice query))))
         products
  else products.

Definition byStock (js : Builtins) (query : Query.t)
    (products : list Product) : list Product :=
  match Query.inStock query with
  | Some text =>
      let stockFilter := String.eqb (toLowerCase js text) "true" in
      List.filter
        (fun p => if stockFilter then (0 <? stock p) && isActive p
                  else (stock p =? 0) || negb (isActive p))
        products
  | None => products
  end.

Definition filterProducts (js : Builtins) (query : Query.t)
    (products : list Product) : list Product :=
  byStock js query
    (byMaxPrice js query (byMinPrice js query (byCategory query products))).

(** [parseInt(limit)] and [parseInt(offset)], with the defaults 50 and 0 of
    the destructuring. *)
Definition limitOf (js : Builtins) (query : Query.t) : option Z :=
  match Query.limit query with
  | Some text => parseInt js text
  | None => Some 50
  end.

Definition offsetOf (js : Builtins) (query : Query.t) : option Z :=
  match Query.offset query with
  | Some text => parseInt js text
  | None => Some 0
  end.

(** [GET /] *)
Definition listProducts (js : Builtins) (query : Query.t)
    (file : option (list Product)) : Reply :=
  let products := readProducts file in
  let filteredProducts := filterProducts js query products in
  let startIndex := offsetOf js query in
  let endIndex := plus startIndex (limitOf js query) in
  let paginatedProducts := slice filteredProducts startIndex endIndex in
  ProductPage paginatedProducts
    (Z.of_nat (length filteredProducts))
    (limitOf js query) (offsetOf js query)
    (match endIndex with
     | Some e => e <? Z.of_nat (length filteredProducts)
     | None => false
     end).

Definition notFoundReply (productId : string) : Reply :=
  Failure 404 "Product Not Found"
    ("Product with ID " +:+ productId +:+ " not found").

(** [GET /:id] *)
Definition getProduct (productId : string) (file : option (list Product))
  : Reply :=
  match List.find (fun p => String.eqb (id p) productId) (readProducts file)
  with
  | Some product => ProductFound product
  | None => notFoundReply productId
  end.

(** [products.findIndex(...)]; [None] stands for -1. *)
Fixpoint findIndex {A} (f : A -> bool) (l : list A) : option nat :=
  match l with
  | [] => None
  | x :: l' => if f x then Some 0%nat else S <$> findIndex f l'
  end.

Definition deactivate (clock : string) (p : Product) : Product :=
  {| id := id p; name := name p; description := description p;
     price := price p; category := category p; stock := stock p;
     imageUrl := imageUrl p; tags := tags p; isActive := false;
     createdAt := createdAt p; updatedAt := clock |}.

(** [DELETE /:id]: the new state of the file and the answer. *)
Definition deleteProduct (productId clock : string) (w : WriteOutcome)
    (file : option (list Product)) : option (list Product) * Reply :=
  let products := readProducts file in
  match findIndex (fun p => String.eqb (id p) productId) products with
  | None => (file, notFoundReply productId)
  | Some productIndex =>
      let products := alter (deactivate clock) productIndex products in
      match writeProducts w products with
      | (file', true) => (file', ProductDeleted)
      | (file', false) =>
          (file', Failure 500 "Save Error" "Failed to delete product")
      end
  end.

(** The value the schema hands to the [Product] constructor: the optional
    fields may be missing. *)
Record Validated := {
  v_id : option string;
  v_name : string;
  v_description : string;
  v_price : Q;
  v_category : string;
  v_stock : Z;
  v_imageUrl : option string;
  v_tags : option (list string);
  v_isActive : option bool;
  v_createdAt : option string;
  v_updatedAt : option string;
}.

(** [new Product(data)] for data the schema accepts; [uuid] is what
    [uuidv4()] returns, [clock] and [clock'] are the two readings of the
    time. [x || d]: an empty string is falsy. *)
Definition construct (value : Validated) (uuid clock clock' : string)
  : Product :=
  {| id := or_default (v_id value) uuid;
     name := v_name value;
     description := v_description value;
     price := v_price value;
     category := v_category value;
     stock := v_stock value;
     imageUrl := or_default (v_imageUrl value) "";
     tags := default [] (v_tags value);
     isActive := default true (v_isActive value);
     createdAt := or_default (v_createdAt value) clock;
     updatedAt := or_default (v_updatedAt value) clock' |}.

(** [POST /]. [validation] is the schema's verdict on the request body:
    [None] when it rejects the body, which makes the constructor throw. *)
Definition createProduct (js : Builtins) (validation : option Validated)
    (uuid clock clock' : string) (w : WriteOutcome)
    (file : option (list Product))
  : option (list Product) * Reply :=
  let products := readProducts file in
  match validation with
  | None =>
      (file, Failure 500 "Internal Server Error" "Failed to create product")
  | Some value =>
      let newProduct := construct value uuid clock clock' in
      match List.find
              (fun p => String.eqb (toLowerCase js (name p))
                          (toLowerCase js (name newProduct)))
              products
      with
      | Some existingProduct =>
          (file, Failure 409 "Product Already Exists"
                   "A product with this name already exists")
      | None =>
          match writeProducts w (products ++ [newProduct]) with
          | (file', true) => (file', ProductCreated newProduct)
          | (file', false) =>
              (file', Failure 500 "Save Error" "Failed to save product")
          end
      end
  end.

(** Built-ins for plain decimal text, with or without a minus sign:
    enough to run the routes on examples. *)
Fixpoint digits (s : string) (acc : Z) : option Z :=
  match s with
  | EmptyString => Some acc
  | String c rest =>
      let n := Z.of_N (Ascii.N_of_ascii c) in
      if (48 <=? n) && (n <=? 57) then digits rest (10 * acc + (n - 48))
      else None
  end.

Definition unsigned (s : string) : option Z :=
  match s with
  | EmptyString => None
  | _ => digits s 0
  end.

Definition decimal (s : string) : option Z :=
  match strip_prefix "-" s with
  | Some rest => Z.opp <$> unsigned rest
  | None => unsigned s
  end.

Definition plain : Builtins :=
  {| parseFloat := fun s =>
       match decimal s with Some n => Finite (inject_Z n) | None => NaN end;
     parseInt := decimal;
     toLowerCase := Js.toLowerCase |}.

Definition sample (i : string) (n : string) (c : string) (s : Z) (a : bool)
  : Product :=
  {| id := i; name := n; description := "A Halloween product";
     price := inject_Z 10; category := c; stock := s; imageUrl := "";
     tags := []; isActive := a;
     createdAt := "2025-10-01T00:00:00.000Z";
     updatedAt := "2025-10-01T00:00:00.000Z" |}.

Definition catalogue : list Product :=
  [sample "prod-001" "Pumpkin" "Decorations" 5 true;
   sample "prod-002" "Mask" "Masks" 0 true;
   sample "prod-003" "Cape" "Costumes" 3 false].

End ProductService.

(** ** The storefront's cart (frontend-service/src/App.tsx) *)

Module Storefront.

(** [Product] and [CartItem] of the frontend's types. Quantities are the
    whole numbers the cart controls produce. *)
Record Product := {
  id : string;
  name : string;
  description : string;
  price : Q;
  category : string;
  image : string;
  inStock : bool;
  stockQuantity : Z;
}.

Record CartItem := {
  product : Product;
  quantity : Z;
}.

(** [item.product.id === productId] *)
Definition has_id (productId : string) (item : CartItem) : bool :=
  String.eqb (id (product item)) productId.

(** [addToCart(product, quantity = 1)]: the state update it passes to
    [setCartItems]. *)
Definition addToCart (newProduct : Product) (qty : option Z)
    (prevItems : list CartItem) : list CartItem :=
  let qty := default 1 qty in
  match List.find (has_id (id newProduct)) prevItems with
  | Some existingItem =>
      (fun item =>
         if has_id (id newProduct) item
         then {| product := product item; quantity := quantity item + qty |}
         else item) <$> prevItems
  | None => prevItems ++ [{| product := newProduct; quantity := qty |}]
  end.

Definition removeFromCart (productId : string) (prevItems : list CartItem)
  : list CartItem :=
  List.filter (fun item => negb (has_id productId item)) prevItems.

Definition updateCartQuantity (productId : string) (qty : Z)
    (prevItems : list CartItem) : list CartItem :=
  if qty <=? 0 then removeFromCart productId prevItems
  else
    (fun item =>
       if has_id productId item
       then {| product := product item; quantity := qty |}
       else item) <$> prevItems.

Definition clearCart (prevItems : list CartItem) : list CartItem := [].

(** [cartItems.reduce((total, item) => total + item.quantity, 0)] *)
Definition getTotalItems (cartItems : list CartItem) : Z :=
  fold_left (fun total item => total + quantity item) cartItems 0.

(** The calls the components make on the cart. *)
Inductive Action :=
| AddToCart (newProduct : Product) (qty : option Z)
| RemoveFromCart (productId : string)
| UpdateCartQuantity (productId : string) (qty : Z)
| ClearCart.

Definition act (cartItems : list CartItem) (a : Action) : list CartItem :=
  match a with
  | AddToCart p q => addToCart p q cartItems
  | RemoveFromCart productId => removeFromCart productId cartItems
  | UpdateCartQuantity productId q => updateCartQuantity productId q cartItems
  | ClearCart => clearCart cartItems
  end.

(** The cart after a session that starts with the empty cart. *)
Definition session (actions : list Action) : list CartItem :=
  fold_left act actions [].

Definition ids (cartItems : list CartItem) : list string :=
  (fun item => id (product item)) <$> cartItems.

(** The quantity the cart holds of a product; 0 when it holds none. *)
Definition quantity_of (productId : string) (cartItems : list CartItem) : Z :=
  match List.find (has_id productId) cartItems with
  | Some item => quantity item
  | None => 0
  end.

(** An action that adds at least one piece, or none at all. *)
Definition adds_pieces (a : Action) : Prop :=
  match a with
  | AddToCart _ (Some q) => 0 < q
  | _ => True
  end.

Definition pumpkin : Product :=
  {| id := "prod-001"; name := "Pumpkin"; description := "A carved pumpkin";
     price := inject_Z 10; category := "Decorations"; image := "";
     inStock := true; stockQuantity := 5 |}.

Definition mask : Product :=
  {| id := "prod-002"; name := "Mask"; description := "A scary mask";
     price := inject_Z 7; category := "Masks"; image := "";
     inStock := true; stockQuantity := 2 |}.

End Storefront.

Import RateLimit Express Proxy Gateway.

(** * Properties *)

(** ** Strings *)

Lemma app_empty (r : string) : "" +:+ r = r.
Proof. reflexivity. Qed.

Lemma app_String a (p r : string) : String a p +:+ r = String a (p +:+ r).
Proof. reflexivity. Qed.

Lemma strip_prefix_Some p s r : strip_prefix p s = Some r ↔ s = p +:+ r.
Proof.
  revert s. induction p as [|a p IH]; intros s; simpl.
  - rewrite app_empty. split; congruence.
  - rewrite app_String. destruct s as [|b s]; [split; discriminate|].
    destruct (Ascii.eqb_spec a b) as [->|Hne].
    + rewrite IH. split; congruence.
    + split; [discriminate | congruence].
Qed.

Lemma strip_prefix_app p r : strip_prefix p (p +:+ r) = Some r.
Proof. by apply strip_prefix_Some. Qed.

(** ** The middleware before the routes *)

Lemma bodyParser_inl mt p req req' :
  bodyParser mt p req = inl req' →
  method req' = method req ∧ originalUrl req' = originalUrl req
  ∧ ip req' = ip req.
Proof.
  unfold bodyParser.
  destruct (_body req); [intros [= <-]; auto|].
  destruct (stream req); simpl; [|intros [= <-]; auto].
  destruct (String.eqb _ _); [|intros [= <-]; auto].
  destruct p; [intros [= <-]; auto | discriminate].
Qed.

(** A request that reaches the rate limiter and the routes has kept its
    method, URL and client address, and is no preflight. *)
Lemma pre_routing_next w req req' :
  pre_routing w req = PreNext req' →
  method req' = method req ∧ originalUrl req' = originalUrl req
  ∧ ip req' = ip req ∧ method req ≠ "OPTIONS".
Proof.
  unfold pre_routing.
  destruct (String.eqb_spec (method req) "OPTIONS") as [|Hm]; [discriminate|].
  destruct (bodyParser "application/json" _ req) as [r1|] eqn:H1;
    [|discriminate].
  destruct (bodyParser "application/x-www-form-urlencoded" _ r1) as [r2|]
    eqn:H2; [|discriminate].
  intros [= <-].
  apply bodyParser_inl in H1 as (? & ? & ?), H2 as (? & ? & ?).
  repeat split; congruence.
Qed.

(** ** Health probing and aggregation *)

(** The two ways a probe ends. *)
Lemma healthCheck_cases net clock url name :
  (Axios.timely_success 5000 net = true ∧
   ∃ rt, healthCheck net clock url name =
     Resolved (JObj [("name", JStr name); ("status", JStr "healthy");
                     ("url", JStr url); ("responseTime", JStr rt);
                     ("lastChecked", JStr clock)]))
  ∨ (Axios.timely_success 5000 net = false ∧
     ∃ e, Axios.get 5000 net = Rejected e ∧
     healthCheck net clock url name =
       Resolved (JObj [("name", JStr name); ("status", JStr "unhealthy");
                       ("url", JStr url); ("error", JStr (errMessage e));
                       ("lastChecked", JStr clock)])).
Proof.
  unfold healthCheck.
  destruct net as [elapsed st hs d | code msg | ]; simpl.
  - destruct (Z.leb_spec 5000 elapsed) as [Hle|Hlt]; simpl.
    + right. split; [|eauto].
      destruct (Z.ltb_spec elapsed 5000); [lia | reflexivity].
    + destruct (Z.ltb_spec elapsed 5000); [|lia]. simpl.
      destruct ((200 <=? st) && (st <? 300)) eqn:Hst; simpl.
      * left. split; [reflexivity|]. eauto.
      * right. split; [reflexivity|]. eauto.
  - right. eauto.
  - right. eauto.
Qed.

(** C1. For every pair of probe results, GET /health answers 200 with
    composite status healthy exactly when both upstream probes report
    healthy, and 503 with status degraded otherwise; the services mapping
    holds the two reports, and the entries that are unhealthy and carry an
    error are exactly the upstreams whose probe failed. *)
Theorem health_composite cfg w req req' store :
  pre_routing w req = PreNext req' →
  method req = "GET" →
  pathname (originalUrl req) = "/health" →
  let pOk := Axios.timely_success 5000 (productNet w) in
  let oOk := Axios.timely_success 5000 (orderNet w) in
  ∃ payload product order,
    reply (handle cfg w req store).2
      = Json (if pOk && oOk then 200 else 503) payload
    ∧ jget "status" payload
      = Some (JStr (if pOk && oOk then "healthy" else "degraded"))
    ∧ jget "services" payload
      = Some (JObj [("product", product); ("order", order)])
    ∧ healthCheck (productNet w) (lastCheckedProduct w)
        (Config.PRODUCT_SERVICE_URL cfg) "Product Service" = Resolved product
    ∧ healthCheck (orderNet w) (lastCheckedOrder w)
        (Config.ORDER_SERVICE_URL cfg) "Order Service" = Resolved order
    ∧ is_str (jget "status" product) "healthy" = pOk
    ∧ is_str (jget "status" order) "healthy" = oOk
    ∧ unhealthy_services payload
      = ((if pOk then [] else ["product"])
         ++ (if oOk then [] else ["order"]))%list.
Proof.
  intros Hpre Hm Hp pOk oOk.
  unfold handle. rewrite Hpre.
  apply pre_routing_next in Hpre as (Hm' & Hu' & _ & _).
  unfold limiter, routes. rewrite Hu', Hm', Hp, Hm.
  change (mount_match "/api/" "/health") with false.
  change (handles_get "GET" && route_match "/health" "/health") with true.
  cbv iota. unfold health.
  destruct (healthCheck_cases (productNet w) (lastCheckedProduct w)
              (Config.PRODUCT_SERVICE_URL cfg) "Product Service")
    as [[Hp1 [rt1 ->]] | [Hp1 (e1 & _ & ->)]];
  destruct (healthCheck_cases (orderNet w) (lastCheckedOrder w)
              (Config.ORDER_SERVICE_URL cfg) "Order Service")
    as [[Ho1 [rt2 ->]] | [Ho1 (e2 & _ & ->)]];
  subst pOk oOk; rewrite Hp1, Ho1; simpl;
  do 3 eexists; repeat split; reflexivity.
Qed.

(** With the order upstream down and the product upstream up, the
    document is degraded and names the order upstream alone. *)
Lemma health_composite_witness :
  ∃ payload,
    reply (handle Config.default (order_down 0)
             (request "GET" "/health" "10.0.0.1") ∅).2 = Json 503 payload
    ∧ jget "status" payload = Some (JStr "degraded")
    ∧ unhealthy_services payload = ["order"].
Proof.
  destruct (health_composite Config.default (order_down 0)
              (request "GET" "/health" "10.0.0.1") _ ∅
              eq_refl eq_refl eq_refl)
    as (payload & p & o & H1 & H2 & _ & _ & _ & _ & _ & H8).
  exists payload. auto.
Defined.

(** C6. For every upstream and every probe outcome (a timely success, a
    timeout, a refused connection, a non-success status) the probe
    resolves with a report and never rejects: the report is healthy with
    no error on a timely success, and unhealthy with the message of the
    failure in its error field otherwise. *)
Theorem healthCheck_never_raises net clock url name :
  ∃ report,
    healthCheck net clock url name = Resolved report
    ∧ jget "name" report = Some (JStr name)
    ∧ if Axios.timely_success 5000 net
      then jget "status" report = Some (JStr "healthy")
           ∧ jget "error" report = None
      else jget "status" report = Some (JStr "unhealthy")
           ∧ ∃ e, Axios.get 5000 net = Rejected e
                  ∧ jget "error" report = Some (JStr (errMessage e)).
Proof.
  destruct (healthCheck_cases net clock url name)
    as [[-> [rt ->]] | [-> (e & He & ->)]];
    eexists; (split; [reflexivity|]); (split; [reflexivity|]).
  - split; reflexivity.
  - split; [reflexivity|]. exists e. split; [exact He | reflexivity].
Qed.

Example healthCheck_timeout :
  healthCheck (Axios.Replied 5000 200 [] JNull) "t"
    "http://localhost:3001" "Product Service"
  = Resolved (JObj [("name", JStr "Product Service");
                    ("status", JStr "unhealthy");
                    ("url", JStr "http://localhost:3001");
                    ("error", JStr "timeout of 5000ms exceeded");
                    ("lastChecked", JStr "t")]).
Proof. vm_compute. reflexivity. Qed.

Example healthCheck_bad_status :
  healthCheck (Axios.Replied 12 503 [] JNull) "t"
    "http://localhost:3001" "Product Service"
  = Resolved (JObj [("name", JStr "Product Service");
                    ("status", JStr "unhealthy");
                    ("url", JStr "http://localhost:3001");
                    ("error", JStr "Request failed with status code 503");
                    ("lastChecked", JStr "t")]).
Proof. vm_compute. reflexivity. Qed.

(** The /health handler never takes its catch branch. *)
Lemma health_resolves cfg w :
  ∃ c payload,
    health cfg w = Resolved (Json c payload)
    ∧ (c = 200 ∨ c = 503)
    ∧ jget "status" payload ≠ Some (JStr "unhealthy").
Proof.
  unfold health.
  destruct (healthCheck_cases (productNet w) (lastCheckedProduct w)
              (Config.PRODUCT_SERVICE_URL cfg) "Product Service")
    as [[Hp1 [rt1 ->]] | [Hp1 (e1 & _ & ->)]];
  destruct (healthCheck_cases (orderNet w) (lastCheckedOrder w)
              (Config.ORDER_SERVICE_URL cfg) "Order Service")
    as [[Ho1 [rt2 ->]] | [Ho1 (e2 & _ & ->)]];
  simpl; do 2 eexists; (split; [reflexivity|]); simpl;
  (split; [auto | discriminate]).
Qed.

(** ** Routing *)

Lemma under_mount mount path :
  mount_match mount path = true →
  ∃ rest, toLowerCase path = drop_trailing_slash mount +:+ rest.
Proof.
  unfold mount_match.
  destruct (strip_prefix _ _) as [rest|] eqn:E; [|discriminate].
  intros _. exists rest. by apply strip_prefix_Some.
Qed.

(** Requests under a proxy prefix go to that proxy, whatever the method. *)
Lemma routes_products cfg w req :
  mount_match "/api/products" (pathname (originalUrl req)) = true →
  routes cfg w req
  = createProxyMiddleware (productProxy cfg) req (upstream w).
Proof.
  intros H. unfold routes. rewrite H.
  apply under_mount in H as [rest E].
  unfold route_match. rewrite E.
  by rewrite !andb_false_r.
Qed.

Lemma routes_orders cfg w req :
  mount_match "/api/orders" (pathname (originalUrl req)) = true →
  routes cfg w req
  = createProxyMiddleware (orderProxy cfg) req (upstream w).
Proof.
  intros H. unfold routes. rewrite H.
  apply under_mount in H as [rest E].
  unfold route_match, mount_match. rewrite E.
  by rewrite !andb_false_r.
Qed.


(** The proxied paths are among the rate-limited ones. *)
Lemma under_api path :
  proxied path = true → mount_match "/api/" path = true.
Proof.
  unfold proxied. intros [H|H]%orb_true_iff;
    apply under_mount in H as [rest E];
    unfold mount_match; rewrite E; reflexivity.
Qed.

(** C2 (as stated) fails for an upstream that times out: neither proxy
    sets a timeout, so a request forwarded to an upstream that takes it
    and never answers gets no response from the gateway, and no 503. *)
Lemma silent_upstream_counterexample :
  let req := request "GET" "/api/products" "10.0.0.1" in
  let result := (handle Config.default (silent 0) req ∅).2 in
  mount_match "/api/products" (pathname (originalUrl req)) = true
  ∧ is_Some (forwarded result)
  ∧ reply result = NoReply
  ∧ statusOf (reply result) ≠ Some 503.
Proof.
  split; [reflexivity|]. split; [by eexists|].
  split; [reflexivity | vm_compute; discriminate].
Qed.

(** C2 (amended). For every request that reaches a proxy: when the
    upstream cannot be reached (the transport reports an error: the
    connection is refused or reset, or the transport itself times out),
    the gateway answers 503 with a body of exactly the three fields
    error = "Service Unavailable", message and service, where service is
    "product-service" under /api/products and "order-service" under
    /api/orders; when the upstream takes the request and never answers,
    the gateway sends no response at all. *)
Theorem proxy_unavailable cfg w req req' store :
  pre_routing w req = PreNext req' →
  (limiter cfg w req' store).2 = Allow →
  let path := pathname (originalUrl req) in
  let answer := reply (handle cfg w req store).2 in
  (mount_match "/api/products" path = true →
   (∀ err, upstream w = UpFailed err →
      answer
      = Json 503
          (JObj [("error", JStr "Service Unavailable");
                 ("message", JStr "Product Service is currently unavailable");
                 ("service", JStr "product-service")]))
   ∧ (upstream w = UpSilent → answer = NoReply))
  ∧ (mount_match "/api/orders" path = true →
     (∀ err, upstream w = UpFailed err →
        answer
        = Json 503
            (JObj [("error", JStr "Service Unavailable");
                   ("message", JStr "Order Service is currently unavailable");
                   ("service", JStr "order-service")]))
     ∧ (upstream w = UpSilent → answer = NoReply)).
Proof.
  intros Hpre Hlim path answer. subst path answer.
  unfold handle. rewrite Hpre.
  apply pre_routing_next in Hpre as (_ & Hu & _ & _). rewrite <- Hu.
  destruct (limiter cfg w req' store) as [store' d]. simpl in Hlim. subst d.
  split; intros H; simpl.
  - rewrite routes_products by done. simpl.
    split; [intros err Hup | intros Hup]; by rewrite Hup.
  - rewrite routes_orders by done. simpl.
    split; [intros err Hup | intros Hup]; by rewrite Hup.
Qed.

(** A request for an order while the order upstream refuses connections,
    and one for the products while the upstream stays silent. *)
Lemma proxy_unavailable_witness :
  reply (handle Config.default (order_down 0)
           (request "GET" "/api/orders/ord-001" "10.0.0.1") ∅).2
  = Json 503
      (JObj [("error", JStr "Service Unavailable");
             ("message", JStr "Order Service is currently unavailable");
             ("service", JStr "order-service")])
  ∧ reply (handle Config.default (silent 0)
             (request "GET" "/api/products" "10.0.0.1") ∅).2
    = NoReply.
Proof.
  split.
  - refine (proj1 (proj2 (proxy_unavailable Config.default (order_down 0)
              (request "GET" "/api/orders/ord-001" "10.0.0.1") _ ∅
              eq_refl _) eq_refl) _ eq_refl).
    vm_compute. reflexivity.
  - refine (proj2 (proj1 (proxy_unavailable Config.default (silent 0)
              (request "GET" "/api/products" "10.0.0.1") _ ∅
              eq_refl _) eq_refl) eq_refl).
    vm_compute. reflexivity.
Defined.

(** ** Path rewriting *)

(** A rule whose pattern is [^] and literal text. *)
Lemma rewrite_rule_anchored literal replacement path :
  rewrite_rule ("^" +:+ literal, replacement) path
  = String.append replacement <$> strip_prefix literal path.
Proof.
  unfold rewrite_rule.
  change (strip_prefix "^" (("^" +:+ literal, replacement).1))
    with (Some literal).
  cbv beta iota.
  destruct (strip_prefix literal path); reflexivity.
Qed.

(** The product rule replaces the prefix by itself: every URL is forwarded
    as it came. *)
Lemma product_rewrite_identity cfg url :
  rewritePath (pathRewrite (productProxy cfg)) url = url.
Proof.
  change (rewritePath (pathRewrite (productProxy cfg)) url)
    with (match rewrite_rule ("^" +:+ "/api/products", "/api/products") url
          with Some p => p | None => url end).
  rewrite rewrite_rule_anchored.
  destruct (strip_prefix "/api/products" url) as [rest|] eqn:E; [|done].
  apply strip_prefix_Some in E. by subst.
Qed.

(** The order rule puts a slash after the prefix, whatever follows. *)
Lemma order_rewrite_prefix cfg suffix :
  rewritePath (pathRewrite (orderProxy cfg)) ("/api/orders" +:+ suffix)
  = "/api/orders/" +:+ suffix.
Proof.
  change (rewritePath (pathRewrite (orderProxy cfg))
            ("/api/orders" +:+ suffix))
    with (match rewrite_rule ("^" +:+ "/api/orders", "/api/orders/")
                  ("/api/orders" +:+ suffix)
          with Some p => p | None => "/api/orders" +:+ suffix end).
  by rewrite rewrite_rule_anchored, strip_prefix_app.
Qed.

Lemma lower_ascii_slash c :
  lower_ascii c = Ascii.ascii_of_N 47 → c = Ascii.ascii_of_N 47.
Proof.
  destruct c as [[] [] [] [] [] [] [] []]; vm_compute; congruence.
Qed.

Lemma lower_starts_with_slash s :
  starts_with_slash (toLowerCase s) = true → ∃ rest, s = "/" +:+ rest.
Proof.
  destruct s as [|c s]; [discriminate|].
  unfold starts_with_slash. cbn [toLowerCase strip_prefix].
  destruct (Ascii.eqb _ (lower_ascii c)) eqn:E; [|discriminate].
  intros _. apply Ascii.eqb_eq in E. symmetry in E.
  apply lower_ascii_slash in E. subst c. by exists s.
Qed.

(** The order rule on the URLs the order mount serves: a path that goes on
    after the prefix gets a double slash, the bare collection path (with
    or without a query string) gets one slash. *)
Lemma order_rewrite_cases cfg url suffix :
  url = "/api/orders" +:+ suffix →
  mount_match "/api/orders" (pathname url) = true →
  (∃ rest, suffix = "/" +:+ rest
           ∧ rewritePath (pathRewrite (orderProxy cfg)) url
             = "/api/orders//" +:+ rest)
  ∨ (pathname url = "/api/orders"
     ∧ rewritePath (pathRewrite (orderProxy cfg)) url
       = "/api/orders/" +:+ suffix).
Proof.
  intros -> Hm. rewrite order_rewrite_prefix.
  unfold mount_match in Hm.
  change (pathname ("/api/orders" +:+ suffix))
    with ("/api/orders" +:+ pathname suffix) in *.
  change (toLowerCase ("/api/orders" +:+ pathname suffix))
    with ("/api/orders" +:+ toLowerCase (pathname suffix)) in Hm.
  change (drop_trailing_slash "/api/orders") with "/api/orders" in Hm.
  rewrite strip_prefix_app in Hm.
  apply orb_true_iff in Hm as [Hm|Hm].
  - right. apply String.eqb_eq in Hm.
    destruct (pathname suffix); [done|].
    cbn [toLowerCase] in Hm. discriminate.
  - left. apply lower_starts_with_slash in Hm as [rest' Hrest].
    destruct suffix as [|c s]; [discriminate|].
    cbn [pathname] in Hrest. rewrite app_String, app_empty in Hrest.
    destruct (Ascii.eqb c _); [discriminate|].
    injection Hrest as -> _. by exists s.
Qed.

Example order_rewrite_bare cfg :
  rewritePath (pathRewrite (orderProxy cfg)) "/api/orders" = "/api/orders/".
Proof. reflexivity. Qed.

Example order_rewrite_query cfg :
  rewritePath (pathRewrite (orderProxy cfg)) "/api/orders?status=pending"
  = "/api/orders/?status=pending".
Proof. reflexivity. Qed.

Example order_rewrite_id cfg :
  rewritePath (pathRewrite (orderProxy cfg)) "/api/orders/ord-001"
  = "/api/orders//ord-001".
Proof. reflexivity. Qed.

(** ** Forwarding *)

(** What the proxies send upstream. *)
Lemma forwarded_products cfg w req req' store :
  pre_routing w req = PreNext req' →
  (limiter cfg w req' store).2 = Allow →
  mount_match "/api/products" (pathname (originalUrl req)) = true →
  forwarded (handle cfg w req store).2
  = Some {| pTarget := Config.PRODUCT_SERVICE_URL cfg;
            pMethod := method req;
            pUrl := outgoingPath (Config.PRODUCT_SERVICE_URL cfg)
                      (originalUrl req);
            pBody := default "" (stream req') |}.
Proof.
  intros Hpre Hlim Hm. unfold handle. rewrite Hpre.
  apply pre_routing_next in Hpre as (Hm' & Hu & _ & _). rewrite <- Hu in Hm.
  destruct (limiter cfg w req' store) as [store' d]. simpl in Hlim. subst d.
  simpl. rewrite routes_products by done.
  unfold createProxyMiddleware. cbn [forwarded].
  by rewrite product_rewrite_identity, Hm', Hu.
Qed.

Lemma forwarded_orders cfg w req req' store :
  pre_routing w req = PreNext req' →
  (limiter cfg w req' store).2 = Allow →
  mount_match "/api/orders" (pathname (originalUrl req)) = true →
  forwarded (handle cfg w req store).2
  = Some {| pTarget := Config.ORDER_SERVICE_URL cfg;
            pMethod := method req;
            pUrl := outgoingPath (Config.ORDER_SERVICE_URL cfg)
                      (rewritePath (pathRewrite (orderProxy cfg))
                         (originalUrl req));
            pBody := default "" (stream req') |}.
Proof.
  intros Hpre Hlim Hm. unfold handle. rewrite Hpre.
  apply pre_routing_next in Hpre as (Hm' & Hu & _ & _). rewrite <- Hu in Hm.
  destruct (limiter cfg w req' store) as [store' d]. simpl in Hlim. subst d.
  simpl. rewrite routes_orders by done.
  unfold createProxyMiddleware. cbn [forwarded].
  by rewrite Hm', Hu.
Qed.

Example forward_product_by_id :
  forwarded (handle Config.default (calm 0)
               (request "GET" "/api/products/prod-001" "10.0.0.1") ∅).2
  = Some {| pTarget := "http://localhost:3001"; pMethod := "GET";
            pUrl := "/api/products/prod-001"; pBody := "" |}.
Proof. vm_compute. reflexivity. Qed.

(** A payload the body parsers do not claim travels on untouched. *)
Example forward_text_order :
  forwarded
    (handle Config.default (calm 0)
       {| method := "POST"; originalUrl := "/api/orders";
          ip := "10.0.0.1"; contentType := "text/plain";
          stream := Some "hello"; body := None; _body := false |} ∅).2
  = Some {| pTarget := "http://localhost:3002"; pMethod := "POST";
            pUrl := "/api/orders/"; pBody := "hello" |}.
Proof. vm_compute. reflexivity. Qed.

(** ** The path sent upstream *)

(** What comes in front of a text does not matter to the collapsing of
    slashes, as long as the text starts the same way. *)
Lemma squeeze_app a p q :
  starts_with_slash p = starts_with_slash q →
  squeeze p = squeeze q →
  squeeze (a +:+ p) = squeeze (a +:+ q).
Proof.
  intros Hs Hq. induction a as [|c a IH]; [by rewrite !app_empty|].
  rewrite !app_String. cbn [squeeze].
  assert (starts_with_slash (a +:+ p) = starts_with_slash (a +:+ q)) as ->.
  { destruct a as [|b a]; [by rewrite !app_empty|].
    rewrite !app_String. unfold starts_with_slash. cbn [strip_prefix].
    by destruct (Ascii.eqb _ b). }
  by rewrite IH.
Qed.

(** The double slash the order rule makes is gone from the path the proxy
    sends: it is the path the proxy would send without the rule. *)
Lemma outgoing_double_slash target rest :
  outgoingPath target ("/api/orders//" +:+ rest)
  = outgoingPath target ("/api/orders/" +:+ rest).
Proof.
  unfold outgoingPath, urlJoin.
  change (parsedPath ("/api/orders//" +:+ rest))
    with ("/api/orders//" +:+ parsedPath rest).
  change (parsedPath ("/api/orders/" +:+ rest))
    with ("/api/orders/" +:+ parsedPath rest).
  generalize (parsedPath rest). intros r.
  change (search ("/api/orders//" +:+ r)) with (search r).
  change (search ("/api/orders/" +:+ r)) with (search r).
  change (pathname ("/api/orders//" +:+ r))
    with ("/api/orders//" +:+ pathname r).
  change (pathname ("/api/orders/" +:+ r))
    with ("/api/orders/" +:+ pathname r).
  generalize (pathname r). intros y.
  change (String.eqb ("/api/orders//" +:+ y) "") with false.
  change (String.eqb ("/api/orders/" +:+ y) "") with false.
  cbv iota.
  destruct (String.eqb (urlPath target) ""); [reflexivity|].
  do 3 f_equal. apply squeeze_app; reflexivity.
Qed.

Lemma starts_String a x y :
  starts_with_slash (String a x) = starts_with_slash (String a y).
Proof.
  unfold starts_with_slash. cbn [strip_prefix]. by destruct (Ascii.eqb _ a).
Qed.

Lemma squeeze_starts s :
  starts_with_slash (squeeze s) = starts_with_slash s.
Proof.
  induction s as [|c s IH]; [done|]. cbn [squeeze].
  unfold starts_with_slash at 3. cbn [strip_prefix].
  destruct (Ascii.eqb_spec (Ascii.ascii_of_N 47) c) as [<-|Hne].
  - change (Ascii.eqb (Ascii.ascii_of_N 47) (Ascii.ascii_of_N 47)) with true.
    cbn [andb]. destruct (starts_with_slash s) eqn:E; [by rewrite IH|done].
  - rewrite (proj2 (Ascii.eqb_neq c (Ascii.ascii_of_N 47))) by congruence.
    cbn [andb]. unfold starts_with_slash. cbn [strip_prefix].
    by destruct (Ascii.eqb _ c).
Qed.

(** After the collapsing, a slash is followed by something else. *)
Lemma squeeze_after_slash y :
  ∃ z, squeeze ("/" +:+ y) = "/" +:+ z ∧ starts_with_slash z = false.
Proof.
  induction y as [|c y IH]; [by exists ""|].
  destruct (starts_with_slash (String c y)) eqn:E.
  - destruct IH as (z & Hz & Hs). exists z. split; [|done].
    change (squeeze ("/" +:+ String c y))
      with (if starts_with_slash (String c y)
            then squeeze (String c y)
            else String (Ascii.ascii_of_N 47) (squeeze (String c y))).
    rewrite E. rewrite <- Hz.
    unfold starts_with_slash in E. cbn [strip_prefix] in E.
    match type of E with
    | context [Ascii.eqb ?a c] => destruct (Ascii.eqb_spec a c) as [<-|]
    end; [reflexivity | done].
  - exists (squeeze (String c y)). split; [|by rewrite squeeze_starts].
    change (squeeze ("/" +:+ String c y))
      with (if starts_with_slash (String c y)
            then squeeze (String c y)
            else String (Ascii.ascii_of_N 47) (squeeze (String c y))).
    by rewrite E.
Qed.

Lemma search_starts url : starts_with_slash (search url) = false.
Proof.
  induction url as [|c url IH]; [done|]. cbn [search].
  destruct (Ascii.eqb_spec c (Ascii.ascii_of_N 63)) as [->|]; done.
Qed.

Lemma app_starts z t :
  starts_with_slash z = false → starts_with_slash t = false →
  starts_with_slash (z +:+ t) = false.
Proof.
  destruct z as [|a z]; [by rewrite app_empty|].
  rewrite app_String. by rewrite (starts_String a (z +:+ t) z).
Qed.

(** Restoring the two slashes of a scheme puts no slash in front. *)
Lemma replace_scheme_starts scheme z :
  starts_with_slash z = false →
  starts_with_slash
    (replace_first ("h" +:+ scheme +:+ ":/") ("h" +:+ scheme +:+ "://") z)
  = false.
Proof.
  intros Hz. destruct z as [|c z]; cbn [replace_first].
  - done.
  - destruct (strip_prefix _ _); [done|].
    by rewrite (starts_String c _ z).
Qed.

(** Towards a target without a path of its own, what follows the
    collection segment is sent after a single slash. *)
Lemma outgoing_single_slash target rest :
  urlPath target = "/" →
  ∃ tail, outgoingPath target ("/api/orders/" +:+ rest)
          = "/api/orders/" +:+ tail
          ∧ starts_with_slash tail = false.
Proof.
  intros Ht. unfold outgoingPath, urlJoin. rewrite Ht.
  change (parsedPath ("/api/orders/" +:+ rest))
    with ("/api/orders/" +:+ parsedPath rest).
  generalize (parsedPath rest). intros r.
  change (search ("/api/orders/" +:+ r)) with (search r).
  change (pathname ("/api/orders/" +:+ r))
    with ("/api/orders/" +:+ pathname r).
  generalize (pathname r). intros y.
  change (String.eqb "/" "") with false.
  change (String.eqb ("/api/orders/" +:+ y) "") with false.
  cbv iota.
  change (squeeze ("/" +:+ "/" +:+ "/api/orders/" +:+ y))
    with ("/api/orders" +:+ squeeze ("/" +:+ y)).
  destruct (squeeze_after_slash y) as (z & -> & Hz).
  change (replace_first "http:/" "http://" ("/api/orders" +:+ "/" +:+ z))
    with ("/api/orders/" +:+ replace_first "http:/" "http://" z).
  pose proof (replace_scheme_starts "ttp" z Hz) as Hz1.
  change ("h" +:+ "ttp" +:+ ":/") with "http:/" in Hz1.
  change ("h" +:+ "ttp" +:+ "://") with "http://" in Hz1.
  revert Hz1. generalize (replace_first "http:/" "http://" z). intros z1 Hz1.
  change (replace_first "https:/" "https://" ("/api/orders/" +:+ z1))
    with ("/api/orders/" +:+ replace_first "https:/" "https://" z1).
  pose proof (replace_scheme_starts "ttps" z1 Hz1) as Hz2.
  change ("h" +:+ "ttps" +:+ ":/") with "https:/" in Hz2.
  change ("h" +:+ "ttps" +:+ "://") with "https://" in Hz2.
  revert Hz2. generalize (replace_first "https:/" "https://" z1).
  intros z2 Hz2.
  exists (z2 +:+ search r). split.
  - change (("/api/orders/" +:+ z2) +:+ search r)
      with ("/api/orders/" +:+ (z2 +:+ search r)). reflexivity.
  - apply app_starts; [done | apply search_starts].
Qed.

(** The bare collection path, with or without a query string. *)
Lemma outgoing_collection target suffix :
  urlPath target = "/" →
  pathname suffix = "" →
  outgoingPath target ("/api/orders/" +:+ suffix) = "/api/orders/" +:+ suffix.
Proof.
  intros Ht Hp. unfold outgoingPath, urlJoin. rewrite Ht.
  assert (parsedPath suffix = suffix ∧ search suffix = suffix) as [Hpp Hs].
  { destruct suffix as [|c s]; [done|]. cbn [pathname parsedPath search] in *.
    destruct (Ascii.eqb c _); [done | discriminate]. }
  change (parsedPath ("/api/orders/" +:+ suffix))
    with ("/api/orders/" +:+ parsedPath suffix).
  rewrite Hpp.
  change (search ("/api/orders/" +:+ suffix)) with (search suffix).
  change (pathname ("/api/orders/" +:+ suffix))
    with ("/api/orders/" +:+ pathname suffix).
  rewrite Hp, Hs. reflexivity.
Qed.

(** C10 (as stated) fails: the request for the order ord-001 reaches the
    order upstream with the path /api/orders/ord-001. The rewrite rule
    does make /api/orders//ord-001 of it, but the proxy collapses the two
    slashes before it sends the request. *)
Lemma order_double_slash_counterexample :
  let req := request "GET" "/api/orders/ord-001" "10.0.0.1" in
  rewritePath (pathRewrite (orderProxy Config.default)) (originalUrl req)
  = "/api/orders//ord-001"
  ∧ forwarded (handle Config.default (calm 0) req ∅).2
    = Some {| pTarget := "http://localhost:3002"; pMethod := "GET";
              pUrl := "/api/orders/ord-001"; pBody := "" |}.
Proof. split; vm_compute; reflexivity. Qed.

(** C10 (amended). The order proxy's rewrite replaces the prefix
    /api/orders by /api/orders/. For every request that is forwarded to
    the order upstream and whose path goes on after the prefix, the
    rewritten URL has a double slash after the collection segment, and
    the proxy collapses it before sending: the path sent is the one the
    unrewritten URL would give, and towards an upstream whose base URL has
    no path of its own it is /api/orders/ followed by something that does
    not start with a slash. Only the bare collection path (with or without
    a query string) changes: it gains exactly one slash. *)
Theorem order_forwarded_single_slash cfg w req req' store suffix :
  pre_routing w req = PreNext req' →
  (limiter cfg w req' store).2 = Allow →
  originalUrl req = "/api/orders" +:+ suffix →
  mount_match "/api/orders" (pathname (originalUrl req)) = true →
  let target := Config.ORDER_SERVICE_URL cfg in
  ∃ p,
    forwarded (handle cfg w req store).2 = Some p
    ∧ pTarget p = target
    ∧ ((∃ rest,
          suffix = "/" +:+ rest
          ∧ rewritePath (pathRewrite (orderProxy cfg)) (originalUrl req)
            = "/api/orders//" +:+ rest
          ∧ pUrl p = outgoingPath target (originalUrl req)
          ∧ (urlPath target = "/" →
             ∃ tail, pUrl p = "/api/orders/" +:+ tail
                     ∧ starts_with_slash tail = false))
       ∨ (pathname (originalUrl req) = "/api/orders"
          ∧ pUrl p = outgoingPath target ("/api/orders/" +:+ suffix)
          ∧ (urlPath target = "/" → pUrl p = "/api/orders/" +:+ suffix))).
Proof.
  intros Hpre Hlim Hurl Hm target.
  eexists. split; [by apply (forwarded_orders cfg w req req')|].
  cbn [pTarget pUrl]. split; [done|].
  destruct (order_rewrite_cases cfg _ suffix Hurl Hm)
    as [(rest & -> & Hrw) | [Hp Hrw]]; rewrite Hrw.
  - left. exists rest. split; [done|]. split; [done|].
    rewrite Hurl. fold target.
    change ("/api/orders" +:+ "/" +:+ rest) with ("/api/orders/" +:+ rest).
    rewrite outgoing_double_slash. split; [done|].
    intros Ht. by apply outgoing_single_slash.
  - right. split; [done|]. split; [done|].
    intros Ht. apply outgoing_collection; [done|].
    rewrite Hurl in Hp.
    change (pathname ("/api/orders" +:+ suffix))
      with ("/api/orders" +:+ pathname suffix) in Hp.
    destruct (pathname suffix); [done | discriminate].
Qed.

(** The status route of one order. *)
Lemma order_forwarded_single_slash_witness :
  let req := request "GET" "/api/orders/ord-001/status" "10.0.0.1" in
  ∃ p, forwarded (handle Config.default (calm 0) req ∅).2 = Some p
       ∧ pTarget p = "http://localhost:3002"
       ∧ pUrl p = "/api/orders/ord-001/status".
Proof.
  intros req.
  assert ((limiter Config.default (calm 0)
             {| method := "GET"; originalUrl := "/api/orders/ord-001/status";
                ip := "10.0.0.1"; contentType := ""; stream := None;
                body := Some (JObj []); _body := false |} ∅).2 = Allow)
    as Hlim by (vm_compute; reflexivity).
  destruct (order_forwarded_single_slash Config.default (calm 0) req _ ∅
              "/ord-001/status" eq_refl Hlim eq_refl eq_refl)
    as (p & Hf & Ht & [(rest & _ & _ & Hu & _) | (Hp & _)]).
  - exists p. split; [exact Hf|]. split; [exact Ht|].
    rewrite Hu. vm_compute. reflexivity.
  - discriminate Hp.
Defined.

(** ** Request bodies *)

(** A JSON payload is read by [express.json] before the proxy runs: what
    the proxy pipes upstream is the empty rest of the stream. *)
Lemma json_body_consumed w req req' payload :
  contentType req = "application/json" →
  stream req = Some payload →
  _body req = false →
  pre_routing w req = PreNext req' →
  stream req' = Some "".
Proof.
  intros Hct Hs Hb. unfold pre_routing.
  destruct (String.eqb (method req) "OPTIONS"); [discriminate|].
  assert (bodyParser "application/json" (parse w) req
          = match parse w with
            | ParseOk v =>
                inl {| method := method req; originalUrl := originalUrl req;
                       ip := ip req; contentType := contentType req;
                       stream := Some ""; body := Some v; _body := true |}
            | ParseError e => inr e
            end) as ->.
  { unfold bodyParser. rewrite Hb. cbn [stream contentType].
    by rewrite Hs, Hct. }
  destruct (parse w); [|discriminate].
  unfold bodyParser. cbn [_body]. by intros [= <-].
Qed.

(** C5. A POST to /api/orders that carries a JSON document reaches the
    order upstream with its method and with the path /api/orders/, but
    with an empty body: the document has been read by the body parser
    registered before the proxy. *)
Theorem forward_json_order_loses_body :
  let req := json_request "POST" "/api/orders" "10.0.0.1" "{}" in
  stream req = Some "{}"
  ∧ forwarded (handle Config.default (calm 0) req ∅).2
    = Some {| pTarget := "http://localhost:3002"; pMethod := "POST";
              pUrl := "/api/orders/"; pBody := "" |}.
Proof. split; vm_compute; reflexivity. Qed.

(** ** Unknown routes and errors *)

(** C7 (as stated) fails: GET /api/debug/connectivity is neither /, nor
    /health, nor under a proxy prefix, and the gateway serves it itself. *)
Lemma debug_route_counterexample :
  let req := request "GET" "/api/debug/connectivity" "10.0.0.1" in
  let path := pathname (originalUrl req) in
  path ≠ "/" ∧ path ≠ "/health"
  ∧ mount_match "/api/products" path = false
  ∧ mount_match "/api/orders" path = false
  ∧ statusOf (reply (handle Config.default (calm 0) req ∅).2) = Some 200
  ∧ keys <$> bodyOf (reply (handle Config.default (calm 0) req ∅).2)
    = Some ["debug"; "timestamp"; "tests"].
Proof. repeat split; try discriminate; vm_compute; reflexivity. Qed.

(** C7 (amended). Every request that reaches the routes (it is no
    preflight, its body parsed, the rate limiter let it through) and that
    matches neither one of the gateway's own routes (GET /, GET /health,
    GET /api/debug/connectivity) nor a proxy prefix is answered with 404
    and a body of the three fields error, message and availableEndpoints,
    the last listing the known endpoints. *)
Theorem unmatched_route cfg w req req' store :
  pre_routing w req = PreNext req' →
  (limiter cfg w req' store).2 = Allow →
  own_route req = false →
  proxied (pathname (originalUrl req)) = false →
  (handle cfg w req store).2
  = respond
      (Json 404
         (JObj [("error", JStr "Not Found");
                ("message",
                 JStr ("Route " +:+ method req +:+ " " +:+ originalUrl req
                       +:+ " not found"));
                ("availableEndpoints",
                 JArr [JStr "GET /"; JStr "GET /health";
                       JStr "GET /api/products"; JStr "POST /api/products";
                       JStr "GET /api/orders"; JStr "POST /api/orders"])])).
Proof.
  intros Hpre Hlim Hown Hprox. unfold handle. rewrite Hpre.
  apply pre_routing_next in Hpre as (Hm & Hu & _ & _).
  destruct (limiter cfg w req' store) as [store' d]. simpl in Hlim. subst d.
  cbn [snd]. unfold routes. rewrite Hu, Hm.
  unfold own_route in Hown. unfold proxied in Hprox.
  apply orb_false_iff in Hprox as [-> ->].
  destruct (handles_get (method req)); cbn [andb] in *.
  - apply orb_false_iff in Hown as [[-> ->]%orb_false_iff ->].
    unfold notFound. by rewrite Hu, Hm.
  - unfold notFound. by rewrite Hu, Hm.
Qed.

(** A route nobody registered. *)
Lemma unmatched_route_witness :
  (handle Config.default (calm 0) (request "DELETE" "/cart" "10.0.0.1") ∅).2
  = respond
      (Json 404
         (JObj [("error", JStr "Not Found");
                ("message", JStr "Route DELETE /cart not found");
                ("availableEndpoints",
                 JArr [JStr "GET /"; JStr "GET /health";
                       JStr "GET /api/products"; JStr "POST /api/products";
                       JStr "GET /api/orders"; JStr "POST /api/orders"])])).
Proof.
  exact (unmatched_route Config.default (calm 0)
           (request "DELETE" "/cart" "10.0.0.1") _ ∅
           eq_refl eq_refl eq_refl eq_refl).
Defined.

(** The gateway's own routes are answered by the gateway, and not by the
    404 handler. *)
Lemma own_routes cfg w req req' store :
  pre_routing w req = PreNext req' →
  (limiter cfg w req' store).2 = Allow →
  own_route req = true →
  forwarded (handle cfg w req store).2 = None
  ∧ reply (handle cfg w req store).2 ≠ notFound req'.
Proof.
  intros Hpre Hlim Hown. unfold handle. rewrite Hpre.
  apply pre_routing_next in Hpre as (Hm & Hu & _ & _).
  destruct (limiter cfg w req' store) as [store' d]. simpl in Hlim. subst d.
  cbn [snd]. unfold routes. rewrite Hu, Hm.
  unfold own_route in Hown.
  destruct (handles_get (method req)); [|discriminate]. cbn [andb] in *.
  destruct (route_match "/health" _).
  { destruct (health_resolves cfg w) as (c & payload & -> & Hc & _).
    split; [done|]. unfold notFound. intros [= -> _]. lia. }
  destruct (route_match "/api/debug/connectivity" _).
  { split; [done|]. unfold debugConnectivity.
    destruct (Axios.get 10000 (orderNet w)); simpl; discriminate. }
  destruct (route_match "/" _); [|discriminate].
  split; [done | discriminate].
Qed.

(** C8 (as stated) fails: an error that carries its own status is answered
    with that status. A malformed JSON document makes the body parser
    raise an error with status 400. *)
Lemma error_status_counterexample :
  let err := {| errStatus := Some 400; errCode := None; errErrno := None;
                errMessage := "Unexpected end of JSON input";
                errStack := "SyntaxError: Unexpected end of JSON input" |} in
  let w := malformed err in
  let req := json_request "POST" "/api/orders" "10.0.0.1" "{" in
  pre_routing w req = PreFailed err
  ∧ reply (handle Config.production w req ∅).2
    = Json 400
        (JObj [("error", JStr "Internal Server Error");
               ("message", JStr "Something went wrong")])
  ∧ statusOf (errorHandler Config.production err) ≠ Some 500.
Proof. repeat split; vm_compute; (reflexivity || discriminate). Qed.

(** C8 (amended). Every error that reaches the top-level handler is
    answered with the error's own status when it carries a non-zero one,
    and with 500 otherwise. The body is error = "Internal Server Error"
    and a message: in production the generic "Something went wrong" and
    nothing else, otherwise the error's own message and a stack field. *)
Theorem error_handler_response cfg w req store err :
  pre_routing w req = PreFailed err →
  let status :=
    match errStatus err with
    | Some st => if st =? 0 then 500 else st
    | None => 500
    end in
  (handle cfg w req store).2 = respond (errorHandler cfg err)
  ∧ (Config.NODE_ENV cfg = "production" →
     errorHandler cfg err
     = Json status
         (JObj [("error", JStr "Internal Server Error");
                ("message", JStr "Something went wrong")]))
  ∧ (Config.NODE_ENV cfg ≠ "production" →
     errorHandler cfg err
     = Json status
         (JObj [("error", JStr "Internal Server Error");
                ("message", JStr (errMessage err));
                ("stack", JStr (errStack err))]))
  ∧ (errStatus err = None → status = 500).
Proof.
  intros Hpre status. unfold handle. rewrite Hpre.
  split; [reflexivity|]. unfold errorHandler.
  split; [|split].
  - intros ->. reflexivity.
  - intros Hne. apply String.eqb_neq in Hne. rewrite Hne. reflexivity.
  - subst status. by intros ->.
Qed.

(** A plain error, without a status, in development mode. *)
Lemma error_handler_response_witness :
  let err := mkError None "request aborted" in
  (handle Config.default (malformed err)
     (json_request "POST" "/api/products" "10.0.0.1" "{") ∅).2
  = respond
      (Json 500
         (JObj [("error", JStr "Internal Server Error");
                ("message", JStr "request aborted");
                ("stack", JStr "Error: request aborted")])).
Proof.
  intros err.
  destruct (error_handler_response Config.default (malformed err)
              (json_request "POST" "/api/products" "10.0.0.1" "{") ∅ err
              eq_refl) as (H & _ & Hdev & _).
  rewrite H, Hdev; [reflexivity | discriminate].
Defined.

(** ** The rate limiter *)

Lemma step_other wm mx t key key' (store : gmap string RateLimitWindow) :
  key ≠ key' → (RateLimit.step wm mx t key store).1 !! key' = store !! key'.
Proof.
  intros Hne. unfold RateLimit.step.
  destruct (store !! key) as [win|]; [destruct (wm <=? t - windowStart win)|];
    cbn [fst]; by rewrite lookup_insert_ne.
Qed.

Lemma step_depends wm mx t key (s1 s2 : gmap string RateLimitWindow) :
  s1 !! key = s2 !! key →
  (RateLimit.step wm mx t key s1).2 = (RateLimit.step wm mx t key s2).2
  ∧ (RateLimit.step wm mx t key s1).1 !! key
    = (RateLimit.step wm mx t key s2).1 !! key.
Proof.
  intros H. unfold RateLimit.step. rewrite H.
  destruct (s2 !! key) as [win|]; [destruct (wm <=? t - windowStart win)|];
    cbn [fst snd]; by rewrite !lookup_insert_eq.
Qed.

Lemma step_fresh cfg t key (store : gmap string RateLimitWindow) :
  no_live_window cfg key t store →
  RateLimit.step (Config.windowMs cfg) (Config.max cfg) t key store
  = (<[key := {| windowStart := t; count := 1 |}]> store, Allow).
Proof.
  unfold no_live_window, RateLimit.step.
  destruct (store !! key) as [win|]; [|done].
  intros H. by destruct (Z.leb_spec (Config.windowMs cfg) (t - windowStart win));
    [|lia].
Qed.

Lemma step_live wm mx t key (store : gmap string RateLimitWindow) win :
  store !! key = Some win →
  live wm t win →
  RateLimit.step wm mx t key store
  = (<[key := {| windowStart := windowStart win; count := count win + 1 |}]>
       store,
     if mx <? count win + 1 then Reject else Allow).
Proof.
  unfold live, RateLimit.step. intros -> H.
  by destruct (Z.leb_spec wm (t - windowStart win)); [lia|].
Qed.

(** Serving a request touches the window of its client only. *)
Lemma handle_other cfg w req store key :
  ip req ≠ key → (handle cfg w req store).1 !! key = store !! key.
Proof.
  intros Hne. unfold handle.
  destruct (pre_routing w req) as [req'| |] eqn:Hpre; [|done..].
  apply pre_routing_next in Hpre as (_ & _ & Hip & _).
  unfold limiter.
  destruct (mount_match "/api/" _); [|done].
  rewrite <- (step_other (Config.windowMs cfg) (Config.max cfg) (now w)
                (ip req') key store) by congruence.
  by destruct (RateLimit.step _ _ _ _ _) as [store' []].
Qed.

(** What the gateway does with a request depends on the store through the
    window of its client only. *)
Lemma handle_depends cfg w req (s1 s2 : gmap string RateLimitWindow) :
  s1 !! ip req = s2 !! ip req →
  (handle cfg w req s1).2 = (handle cfg w req s2).2
  ∧ (handle cfg w req s1).1 !! ip req = (handle cfg w req s2).1 !! ip req.
Proof.
  intros H. unfold handle.
  destruct (pre_routing w req) as [req'| |] eqn:Hpre; [|done..].
  apply pre_routing_next in Hpre as (_ & _ & Hip & _). rewrite <- Hip in *.
  unfold limiter.
  destruct (mount_match "/api/" _); [|done].
  destruct (step_depends (Config.windowMs cfg) (Config.max cfg) (now w)
              (ip req') s1 s2 H) as [Hd Hs].
  destruct (RateLimit.step _ _ _ _ s1) as [s1' d1],
           (RateLimit.step _ _ _ _ s2) as [s2' d2].
  cbn [fst snd] in *. subst d2. by destruct d1.
Qed.

Lemma run_other cfg events store key :
  Forall (fun e : World * Request => ip e.2 ≠ key) events →
  (run cfg events store).1 !! key = store !! key.
Proof.
  revert store. induction events as [|[w req] events IH]; intros store He.
  - done.
  - inversion_clear He as [|? ? Hne He']. cbn [run].
    destruct (handle cfg w req store) as [store1 r] eqn:Hh.
    specialize (IH store1 He').
    destruct (run cfg events store1) as [store2 rs]. cbn [fst] in *.
    rewrite IH. change store1 with (store1, r).1. rewrite <- Hh.
    by apply handle_other.
Qed.

(** C9. For a client B and any two runs in which the other clients issue
    any sequences of requests, starting from stores that agree on B's
    window: B's window is left as it was in both runs, and B's next
    request gets the same decision from the limiter, the same answer from
    the gateway and the same new window in both. In particular another
    client going over its ceiling changes nothing for B. *)
Theorem limiter_noninterference cfg (B : string) others1 others2
    (store1 store2 : gmap string RateLimitWindow) w req :
  Forall (fun e : World * Request => ip e.2 ≠ B) others1 →
  Forall (fun e : World * Request => ip e.2 ≠ B) others2 →
  store1 !! B = store2 !! B →
  ip req = B →
  let after1 := (run cfg others1 store1).1 in
  let after2 := (run cfg others2 store2).1 in
  after1 !! B = store1 !! B
  ∧ after2 !! B = store2 !! B
  ∧ (limiter cfg w req after1).2 = (limiter cfg w req after2).2
  ∧ (handle cfg w req after1).2 = (handle cfg w req after2).2
  ∧ (handle cfg w req after1).1 !! B = (handle cfg w req after2).1 !! B.
Proof.
  intros H1 H2 Heq Hip after1 after2.
  assert (after1 !! B = store1 !! B) as E1 by by apply run_other.
  assert (after2 !! B = store2 !! B) as E2 by by apply run_other.
  assert (after1 !! ip req = after2 !! ip req) as E by (rewrite Hip; congruence).
  repeat split; [done..| | |].
  - unfold limiter. destruct (mount_match "/api/" _); [|done].
    by apply step_depends.
  - by apply handle_depends.
  - rewrite <- Hip. by apply handle_depends.
Qed.

(** Client A goes over its ceiling of two; client B's first request is
    served as if A had never called. *)
Lemma limiter_noninterference_witness :
  let a := request "GET" "/api/products" "10.0.0.1" in
  let b := request "GET" "/api/products" "10.0.0.2" in
  let busy := [(calm 1, a); (calm 2, a); (calm 3, a); (calm 4, a)] in
  (handle two_per_window (calm 5) b (run two_per_window busy ∅).1).2
  = (handle two_per_window (calm 5) b ∅).2.
Proof.
  intros a b busy.
  refine (proj1 (proj2 (proj2 (proj2
            (limiter_noninterference two_per_window "10.0.0.2" busy [] ∅ ∅
               (calm 5) b _ _ eq_refl eq_refl))))).
  - repeat constructor; discriminate.
  - constructor.
Defined.

Example over_ceiling_rejected :
  let a := request "GET" "/api/products" "10.0.0.1" in
  (run two_per_window [(calm 1, a); (calm 2, a); (calm 3, a)] ∅).2 !! 2%nat
  = Some tooManyRequests.
Proof. vm_compute. reflexivity. Qed.

(** A request that opens a window is let through. *)
Lemma handle_fresh cfg w req req' store :
  pre_routing w req = PreNext req' →
  mount_match "/api/" (pathname (originalUrl req)) = true →
  no_live_window cfg (ip req) (now w) store →
  handle cfg w req store
  = (<[ip req := {| windowStart := now w; count := 1 |}]> store,
     routes cfg w req').
Proof.
  intros Hpre Hm Hfresh. unfold handle. rewrite Hpre.
  apply pre_routing_next in Hpre as (_ & Hu & Hip & _).
  unfold limiter. rewrite Hu, Hm, Hip.
  by rewrite step_fresh.
Qed.

(** A request inside a live window is counted, and let through unless the
    count goes over the ceiling. *)
Lemma handle_live cfg w req req' store win :
  pre_routing w req = PreNext req' →
  mount_match "/api/" (pathname (originalUrl req)) = true →
  store !! ip req = Some win →
  live (Config.windowMs cfg) (now w) win →
  handle cfg w req store
  = (<[ip req := {| windowStart := windowStart win;
                    count := count win + 1 |}]> store,
     if Config.max cfg <? count win + 1 then tooManyRequests
     else routes cfg w req').
Proof.
  intros Hpre Hm Hwin Hlive. unfold handle. rewrite Hpre.
  apply pre_routing_next in Hpre as (_ & Hu & Hip & _).
  unfold limiter. rewrite Hu, Hm, Hip.
  rewrite (step_live _ _ _ _ _ win) by done.
  by destruct (Config.max cfg <? count win + 1).
Qed.





(** Under the default ceiling the second request of a window is
    forwarded. *)
Example second_request_forwarded :
  let a := request "GET" "/api/products" "10.0.0.1" in
  let results := (run Config.default [(calm 0, a); (calm 1, a)] ∅).2 in
  ∃ r, results !! 1%nat = Some r
       ∧ is_Some (forwarded r)
       ∧ reply r = Relay 200 "{}".
Proof.
  eexists. split; [vm_compute; reflexivity|].
  split; [by eexists | reflexivity].
Qed.



(** ** More on the gateway *)

Lemma not_under_api path :
  mount_match "/api/" path = false →
  proxied path = false ∧ route_match "/api/debug/connectivity" path = false.
Proof.
  intros H. split.
  - destruct (proxied path) eqn:E; [|done].
    apply under_api in E. congruence.
  - destruct (route_match "/api/debug/connectivity" path) eqn:E; [|done].
    exfalso. unfold route_match in E.
    change (String.eqb "/api/debug/connectivity" "/") with false in E.
    cbv iota in E. unfold mount_match in H.
    apply orb_true_iff in E as [E|E]; apply String.eqb_eq in E;
      rewrite E in H; discriminate H.
Qed.

(** X1. The rate limiter is mounted on /api/ only: a request whose path
    is not under /api leaves the rate-limit store as it was, is never
    answered with the rate-limit error, and is never forwarded. *)
Theorem outside_api_not_limited cfg w req store :
  mount_match "/api/" (pathname (originalUrl req)) = false →
  (handle cfg w req store).1 = store
  ∧ reply (handle cfg w req store).2 ≠ Json 429 RateLimit.message
  ∧ forwarded (handle cfg w req store).2 = None.
Proof.
  intros Hout. unfold handle.
  destruct (pre_routing w req) as [req'|r|e] eqn:Hpre.
  - apply pre_routing_next in Hpre as (_ & Hu & _ & _).
    unfold limiter. rewrite Hu, Hout. cbn [fst snd].
    split; [done|]. unfold routes. rewrite Hu.
    destruct (not_under_api _ Hout) as [Hprox Hdebug].
    apply orb_false_iff in Hprox as [-> ->]. rewrite Hdebug.
    rewrite andb_false_r.
    destruct (handles_get (method req') && route_match "/health" _).
    { destruct (health_resolves cfg w) as (c & payload & -> & Hc & _).
      split; [|done]. simpl. intros [= -> _]. lia. }
    destruct (handles_get (method req') && route_match "/" _);
      (split; [discriminate | done]).
  - split; [done|]. split; [|done]. simpl.
    unfold pre_routing in Hpre.
    destruct (String.eqb (method req) "OPTIONS").
    + injection Hpre as <-. discriminate.
    + destruct (bodyParser "application/json" _ req) as [r1|];
        [|discriminate].
      destruct (bodyParser "application/x-www-form-urlencoded" _ r1);
        discriminate.
  - split; [done|]. split; [|done]. simpl. unfold errorHandler.
    unfold RateLimit.message. intros H. by inversion H.
Qed.

(** A client far over its ceiling asks for /health. *)
Lemma outside_api_not_limited_witness :
  let store : gmap string RateLimitWindow :=
    {["10.0.0.1" := {| windowStart := 0; count := 1000 |}]} in
  (handle Config.default (calm 5) (request "GET" "/health" "10.0.0.1")
     store).1 = store.
Proof.
  intros store.
  exact (proj1 (outside_api_not_limited Config.default (calm 5)
                  (request "GET" "/health" "10.0.0.1") store eq_refl)).
Defined.

(** X2. Whatever the gateway sends upstream keeps the method of the
    request and goes to the upstream of its path: to the product service
    when the path is under /api/products, and to the order service when
    the path is under /api/orders (and then not under /api/products). A
    request under neither prefix is never forwarded. *)
Theorem forwarded_to_the_right_upstream cfg w req store p :
  forwarded (handle cfg w req store).2 = Some p →
  let path := pathname (originalUrl req) in
  pMethod p = method req
  ∧ ((mount_match "/api/products" path = true
      ∧ pTarget p = Config.PRODUCT_SERVICE_URL cfg)
     ∨ (mount_match "/api/orders" path = true
        ∧ mount_match "/api/products" path = false
        ∧ pTarget p = Config.ORDER_SERVICE_URL cfg)).
Proof.
  unfold handle.
  destruct (pre_routing w req) as [req'|r|e] eqn:Hpre; [|discriminate..].
  apply pre_routing_next in Hpre as (Hm & Hu & _ & _).
  destruct (limiter cfg w req' store) as [store' []]; [|discriminate].
  cbn [snd]. unfold routes. rewrite Hu, Hm.
  destruct (handles_get (method req) && route_match "/health" _);
    [discriminate|].
  destruct (handles_get (method req)
            && route_match "/api/debug/connectivity" _); [discriminate|].
  destruct (handles_get (method req) && route_match "/" _); [discriminate|].
  destruct (mount_match "/api/products" _) eqn:Hprod.
  - unfold createProxyMiddleware. cbn [forwarded]. intros [= <-].
    cbn [pMethod pTarget]. split; [done|]. by left.
  - destruct (mount_match "/api/orders" _) eqn:Hord; [|discriminate].
    unfold createProxyMiddleware. cbn [forwarded]. intros [= <-].
    cbn [pMethod pTarget]. split; [done|]. by right.
Qed.

(** A DELETE of an order, with a query string. *)
Lemma forwarded_to_the_right_upstream_witness :
  let req := request "DELETE" "/api/orders/ord-001?force=1" "10.0.0.1" in
  let p := {| pTarget := "http://localhost:3002"; pMethod := "DELETE";
              pUrl := "/api/orders/ord-001?force=1"; pBody := "" |} in
  forwarded (handle Config.default (calm 0) req ∅).2 = Some p
  ∧ mount_match "/api/products" (pathname (originalUrl req)) = false.
Proof.
  intros req p.
  assert (forwarded (handle Config.default (calm 0) req ∅).2 = Some p) as H
    by (vm_compute; reflexivity).
  split; [exact H|].
  destruct (forwarded_to_the_right_upstream Config.default (calm 0) req ∅ p H)
    as [_ [[_ Ht] | (_ & Hnot & _)]].
  - discriminate Ht.
  - exact Hnot.
Defined.

Lemma axios_get_cases timeout net :
  (Axios.timely_success timeout net = true
   ∧ ∃ elapsed st hs d,
       net = Axios.Replied elapsed st hs d
       ∧ Axios.get timeout net
         = Resolved {| Axios.status := st; Axios.headers := hs;
                       Axios.data := d |})
  ∨ (Axios.timely_success timeout net = false
     ∧ ∃ e, Axios.get timeout net = Rejected e).
Proof.
  destruct net as [elapsed st hs d | code msg | ]; simpl; [|right; eauto..].
  destruct (Z.leb_spec timeout elapsed), (Z.ltb_spec elapsed timeout);
    try lia; simpl; [right; eauto|].
  destruct ((200 <=? st) && (st <? 300)); [left | right]; eauto 10.
Qed.

(** X3. GET /api/debug/connectivity answers 200 with status success when
    the order service's /health replies with a success status within 10
    seconds, and 503 with status failed and the error message otherwise;
    it names the order service URL. The call is counted in the client's
    rate-limit window: a live window keeps its start and its count goes up
    by one; a client without a live window gets a new one, opened now,
    with count 1. *)
Theorem debug_connectivity_probe cfg w req req' store :
  pre_routing w req = PreNext req' →
  (limiter cfg w req' store).2 = Allow →
  method req = "GET" →
  pathname (originalUrl req) = "/api/debug/connectivity" →
  let ok := Axios.timely_success 10000 (orderNet w) in
  ∃ test,
    (handle cfg w req store).2
    = respond
        (Json (if ok then 200 else 503)
           (JObj [("debug", JStr "connectivity-test");
                  ("timestamp", JStr (timestamp w));
                  ("tests", JObj [("order_service", test)])]))
    ∧ jget "url" test = Some (JStr (Config.ORDER_SERVICE_URL cfg))
    ∧ jget "status" test = Some (JStr (if ok then "success" else "failed"))
    ∧ (if ok then jget "error" test = None
       else ∃ e, Axios.get 10000 (orderNet w) = Rejected e
                 ∧ jget "error" test = Some (JStr (errMessage e)))
    ∧ (∀ win, store !! ip req = Some win →
              live (Config.windowMs cfg) (now w) win →
              (handle cfg w req store).1 !! ip req
              = Some {| windowStart := windowStart win;
                        count := count win + 1 |})
    ∧ (no_live_window cfg (ip req) (now w) store →
       (handle cfg w req store).1 !! ip req
       = Some {| windowStart := now w; count := 1 |}).
Proof.
  intros Hpre Hlim Hm Hp ok.
  assert (mount_match "/api/" (pathname (originalUrl req)) = true) as Hapi
    by by rewrite Hp.
  assert ((∀ win, store !! ip req = Some win →
                  live (Config.windowMs cfg) (now w) win →
                  (handle cfg w req store).1 !! ip req
                  = Some {| windowStart := windowStart win;
                            count := count win + 1 |})
          ∧ (no_live_window cfg (ip req) (now w) store →
             (handle cfg w req store).1 !! ip req
             = Some {| windowStart := now w; count := 1 |})) as Hcount.
  { split.
    - intros win Hwin Hlive.
      rewrite (handle_live cfg w req req' store win) by done.
      cbn [fst]. by rewrite lookup_insert_eq.
    - intros Hfresh. rewrite (handle_fresh cfg w req req') by done.
      cbn [fst]. by rewrite lookup_insert_eq. }
  revert Hcount. generalize ((handle cfg w req store).1 !! ip req).
  intros counted Hcount.
  unfold handle. rewrite Hpre.
  apply pre_routing_next in Hpre as (Hm' & Hu & Hip & _).
  destruct (limiter cfg w req' store) as [store' d]. cbn [fst snd] in *.
  subst d. cbn [fst snd]. unfold routes. rewrite Hu, Hm', Hp, Hm.
  change (handles_get "GET" && route_match "/health" "/api/debug/connectivity")
    with false.
  change (handles_get "GET"
          && route_match "/api/debug/connectivity" "/api/debug/connectivity")
    with true.
  cbv iota. unfold debugConnectivity. subst ok.
  destruct (axios_get_cases 10000 (orderNet w))
    as [[-> (elapsed & st & hs & d & _ & ->)] | [-> [e ->]]]; simpl.
  - eexists. split; [reflexivity|].
    split; [reflexivity|]. split; [reflexivity|]. split; [reflexivity|].
    exact Hcount.
  - eexists. split; [reflexivity|].
    split; [reflexivity|]. split; [reflexivity|].
    split; [by exists e | exact Hcount].
Qed.

(** The order service refuses connections; the client has made four calls
    in its window. *)
Lemma debug_connectivity_probe_witness :
  let req := request "GET" "/api/debug/connectivity" "10.0.0.1" in
  let store : gmap string RateLimitWindow :=
    {["10.0.0.1" := {| windowStart := 0; count := 4 |}]} in
  statusOf (reply (handle Config.default (order_down 60000) req store).2)
  = Some 503
  ∧ (handle Config.default (order_down 60000) req store).1 !! "10.0.0.1"
    = Some {| windowStart := 0; count := 5 |}.
Proof.
  intros req store.
  assert ((limiter Config.default (order_down 60000)
             {| method := "GET"; originalUrl := "/api/debug/connectivity";
                ip := "10.0.0.1"; contentType := ""; stream := None;
                body := Some (JObj []); _body := false |} store).2 = Allow)
    as Hlim by (vm_compute; reflexivity).
  destruct (debug_connectivity_probe Config.default (order_down 60000)
              req _ store eq_refl Hlim eq_refl eq_refl)
    as (test & Hr & _ & _ & _ & Hlive & _).
  split.
  - rewrite Hr. reflexivity.
  - apply (Hlive {| windowStart := 0; count := 4 |});
      [vm_compute; reflexivity | unfold live; vm_compute; reflexivity].
Defined.

(** X4. A healthy report carries the upstream's x-response-time header as
    responseTime, and N/A when the header is missing or empty; an
    unhealthy report has no responseTime. *)
Theorem probe_response_time net clock url name :
  ∃ report,
    healthCheck net clock url name = Resolved report
    ∧ jget "responseTime" report
      = match net with
        | Axios.Replied elapsed st hs d =>
            if Axios.timely_success 5000 net
            then Some (JStr (match assoc "x-response-time" hs with
                             | Some t => if String.eqb t "" then "N/A" else t
                             | None => "N/A"
                             end))
            else None
        | _ => None
        end.
Proof.
  unfold healthCheck.
  destruct net as [elapsed st hs d | code msg | ];
    [|eexists; split; reflexivity..].
  cbn [Axios.get Axios.timely_success].
  destruct (Z.leb_spec 5000 elapsed), (Z.ltb_spec elapsed 5000); try lia;
    cbn [andb]; [eexists; split; reflexivity|].
  destruct ((200 <=? st) && (st <? 300)); eexists; split; reflexivity.
Qed.

(** X5. The error handler hides the error's message and stack only when
    NODE_ENV is exactly production: with the variable unset, empty or set
    to anything else, the response carries the error's own message and its
    stack. *)
Theorem stack_hidden_only_in_production env err :
  let cfg := Config.of_env env in
  (Config.env_NODE_ENV env = Some "production" →
   bodyOf (errorHandler cfg err)
   = Some (JObj [("error", JStr "Internal Server Error");
                 ("message", JStr "Something went wrong")]))
  ∧ (Config.env_NODE_ENV env ≠ Some "production" →
     ∃ payload,
       bodyOf (errorHandler cfg err) = Some payload
       ∧ jget "message" payload = Some (JStr (errMessage err))
       ∧ jget "stack" payload = Some (JStr (errStack err))).
Proof.
  intros cfg. subst cfg. unfold errorHandler, Config.of_env.
  cbn [Config.NODE_ENV bodyOf]. split.
  - intros ->. reflexivity.
  - intros Hne.
    assert (String.eqb
              (or_default (Config.env_NODE_ENV env) "development")
              "production" = false) as ->.
    { apply String.eqb_neq. unfold or_default.
      destruct (Config.env_NODE_ENV env) as [s|]; [|discriminate].
      destruct (String.eqb_spec s ""); [discriminate|]. congruence. }
    eexists. repeat split; reflexivity.
Qed.

(** NODE_ENV=Production, with a capital letter. *)
Lemma stack_hidden_only_in_production_witness :
  let env := {| Config.env_NODE_ENV := Some "Production";
                Config.env_PRODUCT_SERVICE_URL := None;
                Config.env_ORDER_SERVICE_URL := None;
                Config.env_RATE_LIMIT := None |} in
  jget "stack"
    (default JNull
       (bodyOf (errorHandler (Config.of_env env)
                  (mkError None "connect ECONNREFUSED"))))
  = Some (JStr "Error: connect ECONNREFUSED").
Proof.
  intros env.
  destruct (stack_hidden_only_in_production env
              (mkError None "connect ECONNREFUSED")) as [_ H].
  destruct (H ltac:(discriminate)) as (payload & -> & _ & Hs).
  exact Hs.
Defined.

(** ** The product service *)

Lemma find_app_first {A} (f : A → bool) (l : list A) x :
  List.find f l = Some x →
  f x = true
  ∧ ∃ before after, l = (before ++ x :: after)%list ∧ Forall (fun y => f y = false) before.
Proof.
  induction l as [|y l IH]; simpl; [discriminate|].
  destruct (f y) eqn:E.
  - intros [= <-]. split; [done|]. by exists [], l.
  - intros H. destruct (IH H) as (Hx & before & after & -> & Hb).
    split; [done|]. exists (y :: before), after. split; [done|].
    by constructor.
Qed.

Lemma find_none_all {A} (f : A → bool) (l : list A) :
  List.find f l = None ↔ Forall (fun y => f y = false) l.
Proof.
  induction l as [|y l IH]; simpl; [by split; [constructor|]|].
  destruct (f y) eqn:E.
  - split; [discriminate|]. intros H. inversion H. congruence.
  - rewrite IH. split; [by constructor | by inversion 1].
Qed.

(** X6. GET /:id answers with the first product of the data file that has
    the requested id, and with 404 exactly when no product has it. *)
Theorem get_product_first_match productId file :
  match ProductService.getProduct productId file with
  | ProductService.ProductFound p =>
      ProductService.id p = productId
      ∧ ∃ before after,
          ProductService.readProducts file = (before ++ p :: after)%list
          ∧ Forall (fun q => ProductService.id q ≠ productId) before
  | reply =>
      reply = ProductService.notFoundReply productId
      ∧ Forall (fun q => ProductService.id q ≠ productId)
          (ProductService.readProducts file)
  end.
Proof.
  unfold ProductService.getProduct.
  destruct (List.find _ _) as [p|] eqn:Hfind.
  - apply find_app_first in Hfind as (Hp & before & after & Heq & Hb).
    apply String.eqb_eq in Hp. split; [done|].
    exists before, after. split; [done|].
    eapply Forall_impl; [exact Hb|]. intros q Hq. by apply String.eqb_neq.
  - apply find_none_all in Hfind. split; [done|].
    eapply Forall_impl; [exact Hfind|]. intros q Hq. by apply String.eqb_neq.
Qed.

(** [slice] between two indices that are not negative. *)
Lemma slice_nonneg {A} (l : list A) (o e : Z) :
  0 ≤ o → 0 ≤ e →
  ProductService.slice l (Some o) (Some e)
  = take (Z.to_nat (e - o)) (drop (Z.to_nat o) l).
Proof.
  intros Ho He. unfold ProductService.slice, ProductService.relative_index.
  destruct (Z.ltb_spec o 0); [lia|]. destruct (Z.ltb_spec e 0); [lia|].
  set (len := Z.of_nat (length l)).
  destruct (Z.le_gt_cases o len) as [Hol|Hol].
  - rewrite (Z.min_l o len) by done.
    destruct (Z.le_gt_cases e len) as [Hel|Hel].
    + by rewrite (Z.min_l e len).
    + rewrite (Z.min_r e len) by lia.
      rewrite !take_ge; [done|rewrite length_drop; lia..].
  - rewrite (Z.min_r o len) by lia.
    rewrite !drop_ge by lia. by rewrite !take_nil.
Qed.

(** X9. With an offset and a limit that are not negative, the page is the
    [limit] products that follow the first [offset] matches; the total is
    the number of matches whatever the page; hasMore says whether matches
    remain after the page; a page without hasMore reaches the end; and a
    page followed by the next one is the page of the summed limit. *)
Theorem pagination_pages js query file o L :
  ProductService.offsetOf js query = Some o →
  ProductService.limitOf js query = Some L →
  0 ≤ o → 0 ≤ L →
  let filtered :=
    ProductService.filterProducts js query (ProductService.readProducts file) in
  let page := take (Z.to_nat L) (drop (Z.to_nat o) filtered) in
  ProductService.listProducts js query file
  = ProductService.ProductPage page (Z.of_nat (length filtered))
      (Some L) (Some o) (o + L <? Z.of_nat (length filtered))
  ∧ Z.of_nat (length page) = Z.min L (Z.max (Z.of_nat (length filtered) - o) 0)
  ∧ ((o + L <? Z.of_nat (length filtered)) = false →
     page = drop (Z.to_nat o) filtered)
  ∧ ∀ L', 0 ≤ L' →
      (page ++ take (Z.to_nat L') (drop (Z.to_nat (o + L)) filtered))%list
      = take (Z.to_nat (L + L')) (drop (Z.to_nat o) filtered).
Proof.
  intros Ho HL Ho0 HL0 filtered page.
  split; [|split; [|split]].
  - unfold ProductService.listProducts. rewrite Ho, HL. fold filtered.
    cbn [ProductService.plus]. rewrite slice_nonneg by lia.
    by replace (o + L - o) with L by lia.
  - subst page. rewrite length_take, length_drop. lia.
  - intros Hmore. apply Z.ltb_ge in Hmore. subst page.
    apply take_ge. rewrite length_drop. lia.
  - intros L' HL'. subst page.
    rewrite Z2Nat.inj_add by lia. rewrite (Z2Nat.inj_add L L') by lia.
    rewrite <- drop_drop. by rewrite take_take_drop.
Qed.

(** The second and third product of a three-product catalogue. *)
Lemma pagination_pages_witness :
  ProductService.listProducts ProductService.plain
    {| ProductService.Query.category := None;
       ProductService.Query.minPrice := None;
       ProductService.Query.maxPrice := None;
       ProductService.Query.inStock := None;
       ProductService.Query.limit := Some "2";
       ProductService.Query.offset := Some "1" |}
    (Some ProductService.catalogue)
  = ProductService.ProductPage
      [ProductService.sample "prod-002" "Mask" "Masks" 0 true;
       ProductService.sample "prod-003" "Cape" "Costumes" 3 false]
      3 (Some 2) (Some 1) false.
Proof.
  refine (proj1 (pagination_pages ProductService.plain
                   {| ProductService.Query.category := None;
                      ProductService.Query.minPrice := None;
                      ProductService.Query.maxPrice := None;
                      ProductService.Query.inStock := None;
                      ProductService.Query.limit := Some "2";
                      ProductService.Query.offset := Some "1" |}
                   (Some ProductService.catalogue) 1 2
                   eq_refl eq_refl _ _)); lia.
Defined.



(** X11. A negative offset counts from the end: with offset -k, at least
    k matches and a limit that reaches past the end, the page is the last
    k matches and hasMore is false. *)
Theorem pagination_negative_offset js query file o L :
  ProductService.offsetOf js query = Some o →
  ProductService.limitOf js query = Some L →
  let filtered :=
    ProductService.filterProducts js query (ProductService.readProducts file) in
  let total := Z.of_nat (length filtered) in
  o < 0 → - o ≤ total → total ≤ o + L →
  ProductService.listProducts js query file
  = ProductService.ProductPage (drop (Z.to_nat (total + o)) filtered) total
      (Some L) (Some o) false.
Proof.
  intros Ho HL filtered total Hneg Hlo Hhi.
  unfold ProductService.listProducts. rewrite Ho, HL. fold filtered total.
  cbn [ProductService.plus].
  destruct (Z.ltb_spec (o + L) total); [lia|]. f_equal.
  unfold ProductService.slice, ProductService.relative_index. fold total.
  destruct (Z.ltb_spec o 0); [|lia]. destruct (Z.ltb_spec (o + L) 0); [lia|].
  rewrite Z.max_l by lia. rewrite Z.min_r by lia.
  apply take_ge. rewrite length_drop. lia.
Qed.

(** Offset -1 with the default limit: the last product. *)
Lemma pagination_negative_offset_witness :
  ProductService.listProducts ProductService.plain
    {| ProductService.Query.category := None;
       ProductService.Query.minPrice := None;
       ProductService.Query.maxPrice := None;
       ProductService.Query.inStock := None;
       ProductService.Query.limit := None;
       ProductService.Query.offset := Some "-1" |}
    (Some ProductService.catalogue)
  = ProductService.ProductPage
      [ProductService.sample "prod-003" "Cape" "Costumes" 3 false]
      3 (Some 50) (Some (-1)) false.
Proof.
  refine (pagination_negative_offset ProductService.plain
            {| ProductService.Query.category := None;
               ProductService.Query.minPrice := None;
               ProductService.Query.maxPrice := None;
               ProductService.Query.inStock := None;
               ProductService.Query.limit := None;
               ProductService.Query.offset := Some "-1" |}
            (Some ProductService.catalogue) (-1) 50
            eq_refl eq_refl _ _ _); vm_compute; congruence.
Defined.

Lemma filter_sublist {A} (f : A → bool) (l : list A) :
  List.filter f l `sublist_of` l.
Proof.
  induction l as [|x l IH]; simpl; [constructor|].
  destruct (f x); by constructor.
Qed.

Lemma slice_sublist {A} (l : list A) first final :
  ProductService.slice l first final `sublist_of` l.
Proof.
  unfold ProductService.slice.
  etrans; [apply sublist_take | apply sublist_drop].
Qed.

Lemma elem_of_filter_bool {A} (f : A → bool) (l : list A) x :
  x ∈ List.filter f l ↔ x ∈ l ∧ f x = true.
Proof. rewrite !list_elem_of_In. apply filter_In. Qed.

Lemma elem_of_cond_filter {A} (b : bool) (f : A → bool) (l : list A) x :
  x ∈ (if b then List.filter f l else l) → x ∈ l ∧ (b = true → f x = true).
Proof.
  destruct b; [|by split].
  intros [? ?]%elem_of_filter_bool. by split.
Qed.

Lemma filterProducts_sublist js query products :
  ProductService.filterProducts js query products `sublist_of` products.
Proof.
  unfold ProductService.filterProducts, ProductService.byStock,
    ProductService.byMaxPrice, ProductService.byMinPrice,
    ProductService.byCategory.
  repeat match goal with
         | |- context [if ?b then _ else _] => destruct b
         | |- context [match ?o with Some _ => _ | None => _ end] => destruct o
         end;
    repeat (etrans; [apply filter_sublist|]); done.
Qed.

(** X7. The list route invents and reorders nothing: its page is a
    sublist of the data file, and every product on it passes each filter
    the query asks for (category, minimum and maximum price, stock). *)
Theorem listing_is_filtered js query file products total limit offset hasMore :
  ProductService.listProducts js query file
  = ProductService.ProductPage products total limit offset hasMore →
  products `sublist_of` ProductService.readProducts file
  ∧ ∀ p, p ∈ products →
      (∀ c, ProductService.Query.category query = Some c → c ≠ "" →
         ProductService.category p = c)
      ∧ (∀ m, ProductService.Query.minPrice query = Some m → m ≠ "" →
           ProductService.ge (ProductService.price p)
             (ProductService.parseFloat js m) = true)
      ∧ (∀ m, ProductService.Query.maxPrice query = Some m → m ≠ "" →
           ProductService.le (ProductService.price p)
             (ProductService.parseFloat js m) = true)
      ∧ (∀ t, ProductService.Query.inStock query = Some t →
           if String.eqb (ProductService.toLowerCase js t) "true"
           then ProductService.isInStock p = true
           else ProductService.stock p = 0
                ∨ ProductService.isActive p = false).
Proof.
  unfold ProductService.listProducts. intros [= <- _ _ _ _].
  set (all := ProductService.readProducts file).
  split.
  { etrans; [apply slice_sublist | apply filterProducts_sublist]. }
  intros p Hp.
  eapply elem_of_sublist in Hp; [|apply slice_sublist].
  unfold ProductService.filterProducts in Hp.
  assert (p ∈ ProductService.byMaxPrice js query
                (ProductService.byMinPrice js query
                   (ProductService.byCategory query all))
          ∧ ∀ t, ProductService.Query.inStock query = Some t →
              if String.eqb (ProductService.toLowerCase js t) "true"
              then ProductService.isInStock p = true
              else ProductService.stock p = 0
                   ∨ ProductService.isActive p = false) as [Hp1 Hstock].
  { unfold ProductService.byStock in Hp.
    destruct (ProductService.Query.inStock query) as [t|]; [|by split].
    apply elem_of_filter_bool in Hp as [Hp Hf]. split; [done|].
    intros ? [= <-].
    destruct (String.eqb _ "true"); [done|].
    apply orb_true_iff in Hf as [Hf|Hf].
    - left. by apply Z.eqb_eq.
    - right. by apply negb_true_iff. }
  assert (∀ text, text ≠ "" → ProductService.truthy (Some text) = true)
    as Htruthy.
  { intros text Hne. unfold ProductService.truthy.
    by destruct (String.eqb_spec text ""). }
  unfold ProductService.byMaxPrice in Hp1.
  apply elem_of_cond_filter in Hp1 as [Hp2 Hmax].
  unfold ProductService.byMinPrice in Hp2.
  apply elem_of_cond_filter in Hp2 as [Hp3 Hmin].
  unfold ProductService.byCategory in Hp3.
  apply elem_of_cond_filter in Hp3 as [_ Hcat].
  split; [|split; [|split]]; [| | |done].
  - intros c Hc Hne. rewrite Hc in Hcat.
    apply String.eqb_eq. apply Hcat. by apply Htruthy.
  - intros m Hm Hne. rewrite Hm in Hmin. apply Hmin. by apply Htruthy.
  - intros m Hm Hne. rewrite Hm in Hmax. apply Hmax. by apply Htruthy.
Qed.

(** inStock=TRUE on the catalogue lists the pumpkin, which is in stock. *)
Lemma listing_is_filtered_witness :
  ProductService.isInStock
    (ProductService.sample "prod-001" "Pumpkin" "Decorations" 5 true) = true.
Proof.
  pose (query := {| ProductService.Query.category := None;
                    ProductService.Query.minPrice := None;
                    ProductService.Query.maxPrice := None;
                    ProductService.Query.inStock := Some "TRUE";
                    ProductService.Query.limit := None;
                    ProductService.Query.offset := None |}).
  destruct (listing_is_filtered ProductService.plain query
              (Some ProductService.catalogue)
              [ProductService.sample "prod-001" "Pumpkin" "Decorations" 5 true]
              1 (Some 50) (Some 0) false eq_refl) as [_ H].
  destruct (H _ (list_elem_of_here _ _)) as (_ & _ & _ & Hstock).
  exact (Hstock "TRUE" eq_refl).
Defined.



(** A product whose stock went below zero is in neither listing. *)
Example negative_stock_unlisted :
  let ghost := ProductService.sample "prod-009" "Ghost" "Props" (-1) true in
  ∀ text,
    ProductService.byStock ProductService.plain
      {| ProductService.Query.category := None;
         ProductService.Query.minPrice := None;
         ProductService.Query.maxPrice := None;
         ProductService.Query.inStock := Some text;
         ProductService.Query.limit := None;
         ProductService.Query.offset := None |} [ghost] = [].
Proof.
  intros ghost text. unfold ProductService.byStock. simpl.
  by destruct (String.eqb _ "true").
Qed.

Lemma findIndex_Some {A} (f : A → bool) (l : list A) i :
  ProductService.findIndex f l = Some i →
  ∃ x, l !! i = Some x ∧ f x = true ∧ List.find f l = Some x
       ∧ ∀ j y, (j < i)%nat → l !! j = Some y → f y = false.
Proof.
  revert i. induction l as [|y l IH]; intros i; simpl; [discriminate|].
  destruct (f y) eqn:E.
  - intros [= <-]. exists y. repeat split; [done|]. intros j ? Hj. lia.
  - destruct (ProductService.findIndex f l) as [k|]; [|discriminate].
    intros [= <-]. destruct (IH k eq_refl) as (x & Hx & Hfx & Hfind & Hbefore).
    exists x. repeat split; [done..|].
    intros [|j] z Hj Hz; simpl in Hz; [congruence|].
    apply (Hbefore j); [lia | done].
Qed.

Lemma findIndex_None {A} (f : A → bool) (l : list A) :
  ProductService.findIndex f l = None ↔ List.find f l = None.
Proof.
  induction l as [|y l IH]; simpl; [done|].
  destruct (f y); [done|].
  rewrite <- IH. by destruct (ProductService.findIndex f l).
Qed.

(** X13. DELETE /:id of a product the file holds, when the file can be
    written, removes nothing: the file keeps its length and every other
    product, the first product with the id is marked inactive, GET /:id
    still finds it, and it no longer counts as in stock. *)
Theorem delete_is_soft productId clock file i :
  let products := ProductService.readProducts file in
  ProductService.findIndex
    (fun p => String.eqb (ProductService.id p) productId) products = Some i →
  ∃ target,
    products !! i = Some target
    ∧ ProductService.id target = productId
    ∧ ProductService.deleteProduct productId clock ProductService.Written file
      = (Some (alter (ProductService.deactivate clock) i products),
         ProductService.ProductDeleted)
    ∧ length (alter (ProductService.deactivate clock) i products)
      = length products
    ∧ (∀ j, j ≠ i →
         alter (ProductService.deactivate clock) i products !! j
         = products !! j)
    ∧ ProductService.getProduct productId
        (Some (alter (ProductService.deactivate clock) i products))
      = ProductService.ProductFound (ProductService.deactivate clock target)
    ∧ ProductService.isInStock (ProductService.deactivate clock target)
      = false.
Proof.
  intros products Hidx.
  destruct (findIndex_Some _ _ _ Hidx) as (target & Hi & Hid & _ & Hbefore).
  exists target. apply String.eqb_eq in Hid.
  split; [done|]. split; [done|]. split.
  { unfold ProductService.deleteProduct. fold products. by rewrite Hidx. }
  split; [apply length_alter|].
  split; [intros j Hj; by apply list_lookup_alter_ne|].
  split.
  - unfold ProductService.getProduct. cbn [ProductService.readProducts default].
    clear Hidx. revert i Hi Hbefore.
    induction products as [|q qs IH]; intros i Hi Hbefore; [done|].
    destruct i as [|i]; simpl in *.
    + injection Hi as ->. rewrite Hid, String.eqb_refl. done.
    + assert (String.eqb (ProductService.id q) productId = false) as ->
        by (apply (Hbefore 0%nat); [lia | done]).
      apply IH; [done|]. intros j y Hj Hy. apply (Hbefore (S j)); [lia | done].
  - unfold ProductService.isInStock. simpl. apply andb_false_r.
Qed.

(** Deleting the first product of the catalogue. *)
Lemma delete_is_soft_witness :
  ProductService.deleteProduct "prod-001" "2025-10-31T00:00:00.000Z"
    ProductService.Written (Some ProductService.catalogue)
  = (Some (alter (ProductService.deactivate "2025-10-31T00:00:00.000Z") 0%nat
             ProductService.catalogue),
     ProductService.ProductDeleted).
Proof.
  destruct (delete_is_soft "prod-001" "2025-10-31T00:00:00.000Z"
              (Some ProductService.catalogue) 0%nat eq_refl)
    as (target & _ & _ & H & _).
  exact H.
Defined.

(** X14. DELETE /:id of an id no product has answers 404 and leaves the
    file untouched; when the product exists and the write fails the answer
    is 500 Save Error. *)
Theorem delete_failures productId clock w file :
  let products := ProductService.readProducts file in
  (Forall (fun p => ProductService.id p ≠ productId) products →
   ProductService.deleteProduct productId clock w file
   = (file, ProductService.notFoundReply productId))
  ∧ (∀ leftover,
       w = ProductService.WriteFailed leftover →
       Exists (fun p => ProductService.id p = productId) products →
       ProductService.deleteProduct productId clock w file
       = (leftover,
          ProductService.Failure 500 "Save Error" "Failed to delete product")).
Proof.
  intros products. unfold ProductService.deleteProduct. fold products. split.
  - intros Hnone.
    assert (ProductService.findIndex
              (fun p => String.eqb (ProductService.id p) productId) products
            = None) as ->; [|done].
    apply findIndex_None, find_none_all.
    eapply Forall_impl; [exact Hnone|]. intros p Hp. by apply String.eqb_neq.
  - intros leftover -> Hex.
    destruct (ProductService.findIndex _ products) as [i|] eqn:Hidx; [done|].
    apply findIndex_None, find_none_all in Hidx.
    apply Exists_exists in Hex as (p & Hin & Hp).
    eapply Forall_forall in Hidx; [|exact Hin]. simpl in Hidx.
    apply String.eqb_neq in Hidx. done.
Qed.

(** Deleting an id nobody has. *)
Lemma delete_failures_witness :
  ProductService.deleteProduct "prod-404" "2025-10-31T00:00:00.000Z"
    ProductService.Written (Some ProductService.catalogue)
  = (Some ProductService.catalogue, ProductService.notFoundReply "prod-404").
Proof.
  refine (proj1 (delete_failures "prod-404" "2025-10-31T00:00:00.000Z"
                   ProductService.Written (Some ProductService.catalogue)) _).
  repeat constructor; discriminate.
Defined.

Lemma find_app_last {A} (f : A → bool) (l : list A) x :
  List.find f (l ++ [x])
  = match List.find f l with
    | Some y => Some y
    | None => if f x then Some x else None
    end.
Proof.
  induction l as [|y l IH]; simpl; [done|]. by destruct (f y).
Qed.

(** X15. POST / refuses a product whose name equals the name of a product
    in the file up to letter case: the answer is 409 and nothing is
    written. *)
Theorem create_refuses_taken_name js value uuid clock clock' w file existing :
  existing ∈ ProductService.readProducts file →
  ProductService.toLowerCase js (ProductService.name existing)
  = ProductService.toLowerCase js (ProductService.v_name value) →
  ProductService.createProduct js (Some value) uuid clock clock' w file
  = (file,
     ProductService.Failure 409 "Product Already Exists"
       "A product with this name already exists").
Proof.
  intros Hin Hname. unfold ProductService.createProduct.
  cbn [ProductService.construct ProductService.name].
  destruct (List.find _ _) as [p|] eqn:Hfind; [done|].
  apply find_none_all in Hfind.
  eapply Forall_forall in Hfind; [|exact Hin]. simpl in Hfind.
  rewrite Hname, String.eqb_refl in Hfind. discriminate.
Qed.

(** PUMPKIN against a catalogue that holds Pumpkin. *)
Lemma create_refuses_taken_name_witness :
  let value :=
    {| ProductService.v_id := None; ProductService.v_name := "PUMPKIN";
       ProductService.v_description := "Another pumpkin";
       ProductService.v_price := inject_Z 12;
       ProductService.v_category := "Decorations";
       ProductService.v_stock := 1; ProductService.v_imageUrl := None;
       ProductService.v_tags := None; ProductService.v_isActive := None;
       ProductService.v_createdAt := None;
       ProductService.v_updatedAt := None |} in
  ProductService.createProduct ProductService.plain (Some value)
    "7f9c2c1e" "t1" "t2" ProductService.Written
    (Some ProductService.catalogue)
  = (Some ProductService.catalogue,
     ProductService.Failure 409 "Product Already Exists"
       "A product with this name already exists").
Proof.
  intros value.
  refine (create_refuses_taken_name ProductService.plain value "7f9c2c1e"
            "t1" "t2" ProductService.Written (Some ProductService.catalogue)
            (ProductService.sample "prod-001" "Pumpkin" "Decorations" 5 true)
            _ eq_refl).
  apply list_elem_of_here.
Defined.

(** X16. When no product of the file has the new name, POST / appends the
    new product to the file. Every id found before is still answered with
    the same product, so a new product that reuses an id of the file is
    created but not found by GET /:id; an id that was not found is found
    only if it is the new product's. *)
Theorem create_appends js value uuid clock clock' file :
  let products := ProductService.readProducts file in
  let newProduct := ProductService.construct value uuid clock clock' in
  Forall
    (fun p => ProductService.toLowerCase js (ProductService.name p)
              ≠ ProductService.toLowerCase js (ProductService.v_name value))
    products →
  ProductService.createProduct js (Some value) uuid clock clock'
    ProductService.Written file
  = (Some (products ++ [newProduct])%list,
     ProductService.ProductCreated newProduct)
  ∧ ∀ productId,
      ProductService.getProduct productId (Some (products ++ [newProduct])%list)
      = match ProductService.getProduct productId file with
        | ProductService.ProductFound p => ProductService.ProductFound p
        | _ =>
            if String.eqb (ProductService.id newProduct) productId
            then ProductService.ProductFound newProduct
            else ProductService.notFoundReply productId
        end.
Proof.
  intros products newProduct Hfresh. split.
  - unfold ProductService.createProduct. fold products newProduct.
    assert (List.find
              (fun p => String.eqb
                          (ProductService.toLowerCase js (ProductService.name p))
                          (ProductService.toLowerCase js
                             (ProductService.name newProduct)))
              products = None) as ->; [|done].
    apply find_none_all. eapply Forall_impl; [exact Hfresh|].
    intros p Hp. by apply String.eqb_neq.
  - intros productId. unfold ProductService.getProduct.
    change (ProductService.readProducts (Some (products ++ [newProduct])%list))
      with (products ++ [newProduct])%list.
    fold products. rewrite find_app_last.
    destruct (List.find _ products); [done|].
    by destruct (String.eqb (ProductService.id newProduct) productId).
Qed.

(** A broom created under the id of the pumpkin: the pumpkin is found. *)
Lemma create_appends_witness :
  let value :=
    {| ProductService.v_id := Some "prod-001";
       ProductService.v_name := "Broom";
       ProductService.v_description := "A witch's broom";
       ProductService.v_price := inject_Z 12;
       ProductService.v_category := "Props";
       ProductService.v_stock := 1; ProductService.v_imageUrl := None;
       ProductService.v_tags := None; ProductService.v_isActive := None;
       ProductService.v_createdAt := None;
       ProductService.v_updatedAt := None |} in
  ProductService.getProduct "prod-001"
    (ProductService.createProduct ProductService.plain (Some value)
       "7f9c2c1e" "t1" "t2" ProductService.Written
       (Some ProductService.catalogue)).1
  = ProductService.ProductFound
      (ProductService.sample "prod-001" "Pumpkin" "Decorations" 5 true).
Proof.
  intros value.
  destruct (create_appends ProductService.plain value "7f9c2c1e" "t1" "t2"
              (Some ProductService.catalogue)) as [Hc Hg].
  - repeat constructor; discriminate.
  - rewrite Hc. cbn [fst]. rewrite Hg. reflexivity.
Defined.

(** X17. reduceStock throws Insufficient stock exactly when the quantity
    exceeds the stock; otherwise the stock goes down by the quantity and
    is not negative afterwards, whatever it was, and the product is in
    stock afterwards exactly when some stock is left and it is active. *)
Theorem reduceStock_keeps_stock_nonnegative quantity clock p :
  match ProductService.reduceStock quantity clock p with
  | inl p' =>
      quantity ≤ ProductService.stock p
      ∧ ProductService.stock p' = ProductService.stock p - quantity
      ∧ 0 ≤ ProductService.stock p'
      ∧ ProductService.id p' = ProductService.id p
      ∧ (ProductService.isInStock p' = true
         ↔ quantity < ProductService.stock p
           ∧ ProductService.isActive p = true)
  | inr e =>
      ProductService.stock p < quantity
      ∧ errMessage e = "Insufficient stock"
  end.
Proof.
  unfold ProductService.reduceStock.
  destruct (Z.ltb_spec (ProductService.stock p) quantity); [done|].
  unfold ProductService.isInStock.
  cbn [ProductService.stock ProductService.isActive ProductService.id].
  split; [lia|]. split; [done|]. split; [lia|]. split; [done|].
  rewrite andb_true_iff, Z.ltb_lt.
  split; intros [H1 H2]; split; (done || lia).
Qed.


(** ** The storefront's cart *)

Lemma find_has_id_None productId (items : list Storefront.CartItem) :
  List.find (Storefront.has_id productId) items = None
  ↔ productId ∉ Storefront.ids items.
Proof.
  induction items as [|item items IH]; simpl.
  - split; [intros _; apply not_elem_of_nil | done].
  - unfold Storefront.has_id at 1.
    destruct (String.eqb_spec (Storefront.id (Storefront.product item))
                productId) as [E|E].
    + split; [discriminate|]. intros H. exfalso. apply H. rewrite E. left.
    + rewrite IH, not_elem_of_cons.
      split; [intros H; split; [congruence | done] | by intros [_ H]].
Qed.

Lemma find_has_id_Some productId (items : list Storefront.CartItem) item :
  List.find (Storefront.has_id productId) items = Some item →
  Storefront.id (Storefront.product item) = productId
  ∧ productId ∈ Storefront.ids items.
Proof.
  induction items as [|i items IH]; simpl; [discriminate|].
  unfold Storefront.has_id at 1.
  destruct (String.eqb_spec (Storefront.id (Storefront.product i)) productId)
    as [E|E].
  - intros [= <-]. split; [done|]. rewrite E. left.
  - intros H. destruct (IH H). split; [done|]. by right.
Qed.

(** Changing quantities in place leaves the products and their order. *)
Lemma ids_requantify (f : Storefront.CartItem → Z) (c : Storefront.CartItem → bool)
    (items : list Storefront.CartItem) :
  Storefront.ids
    ((fun item =>
        if c item
        then {| Storefront.product := Storefront.product item;
                Storefront.quantity := f item |}
        else item) <$> items)
  = Storefront.ids items.
Proof.
  unfold Storefront.ids. rewrite <- list_fmap_compose.
  apply list_fmap_ext. intros _ item _. simpl. by destruct (c item).
Qed.

Lemma ids_removeFromCart productId items :
  Storefront.ids (Storefront.removeFromCart productId items)
  = List.filter (fun i => negb (String.eqb i productId)) (Storefront.ids items).
Proof.
  induction items as [|item items IH]; [done|].
  simpl. unfold Storefront.has_id at 1.
  destruct (String.eqb _ productId); simpl; by rewrite IH.
Qed.

Lemma NoDup_filter_ids (c : string → bool) (l : list string) :
  NoDup l → NoDup (List.filter c l).
Proof.
  induction 1 as [|x l Hx Hl IH]; simpl; [constructor|].
  destruct (c x); [|done]. constructor; [|done].
  intros Hin. apply Hx. apply list_elem_of_In in Hin.
  apply filter_In in Hin as [Hin _]. by apply list_elem_of_In.
Qed.

Lemma act_NoDup items a :
  NoDup (Storefront.ids items) → NoDup (Storefront.ids (Storefront.act items a)).
Proof.
  intros Hnd. destruct a as [p q | pid | pid q | ]; simpl.
  - unfold Storefront.addToCart.
    destruct (List.find _ items) as [existing|] eqn:Hfind.
    + by rewrite ids_requantify.
    + apply find_has_id_None in Hfind.
      unfold Storefront.ids in *. rewrite fmap_app. simpl.
      apply NoDup_app. repeat split; [done| |apply NoDup_singleton].
      intros x Hx ->%list_elem_of_singleton. done.
    - rewrite ids_removeFromCart. by apply NoDup_filter_ids.
    - unfold Storefront.updateCartQuantity. destruct (q <=? 0).
      + rewrite ids_removeFromCart. by apply NoDup_filter_ids.
      + by rewrite ids_requantify.
    - constructor.
Qed.

Lemma fold_act_NoDup actions items :
  NoDup (Storefront.ids items) →
  NoDup (Storefront.ids (fold_left Storefront.act actions items)).
Proof.
  revert items. induction actions as [|a actions IH]; intros items H; [done|].
  simpl. apply IH. by apply act_NoDup.
Qed.

Lemma session_NoDup actions :
  NoDup (Storefront.ids (Storefront.session actions)).
Proof. apply fold_act_NoDup. constructor. Qed.

Lemma find_own_line items item :
  NoDup (Storefront.ids items) →
  item ∈ items →
  List.find (Storefront.has_id (Storefront.id (Storefront.product item))) items
  = Some item.
Proof.
  induction items as [|i items IH]; intros Hnd Hin; [by inversion Hin|].
  inversion_clear Hnd as [|? ? Hnotin Hnd']. cbn [List.find].
  apply elem_of_cons in Hin as [->|Hin].
  - unfold Storefront.has_id. by rewrite String.eqb_refl.
  - destruct (Storefront.has_id _ i) eqn:E; [|by apply IH].
    apply String.eqb_eq in E. exfalso. apply Hnotin. rewrite E.
    unfold Storefront.ids. apply list_elem_of_fmap. by exists item.
Qed.

(** X18. Whatever the components do with the cart, starting from the
    empty one, no product takes two lines: the product ids of the lines
    are pairwise distinct, and the quantity looked up for a line's product
    is that line's quantity. *)
Theorem cart_ids_distinct actions :
  let cart := Storefront.session actions in
  NoDup (Storefront.ids cart)
  ∧ ∀ item, item ∈ cart →
      Storefront.quantity_of (Storefront.id (Storefront.product item)) cart
      = Storefront.quantity item.
Proof.
  intros cart. pose proof (session_NoDup actions) as Hnd. split; [done|].
  intros item Hin. unfold Storefront.quantity_of.
  by rewrite find_own_line.
Qed.

Lemma fold_total (items : list Storefront.CartItem) (acc : Z) :
  fold_left (fun total item => total + Storefront.quantity item) items acc
  = acc + Storefront.getTotalItems items.
Proof.
  unfold Storefront.getTotalItems.
  revert acc. induction items as [|item items IH]; intros acc; simpl; [lia|].
  rewrite IH, (IH (0 + _)). lia.
Qed.

Lemma getTotalItems_cons item items :
  Storefront.getTotalItems (item :: items)
  = Storefront.quantity item + Storefront.getTotalItems items.
Proof. unfold Storefront.getTotalItems at 1. simpl. by rewrite fold_total. Qed.

Lemma getTotalItems_app items1 items2 :
  Storefront.getTotalItems (items1 ++ items2)
  = Storefront.getTotalItems items1 + Storefront.getTotalItems items2.
Proof.
  induction items1 as [|item items1 IH]; [done|].
  rewrite <- app_comm_cons, !getTotalItems_cons. lia.
Qed.

(** Setting the quantity of the one line that holds a product. *)
Lemma getTotalItems_requantify productId (f : Storefront.CartItem → Z) items :
  NoDup (Storefront.ids items) →
  Storefront.getTotalItems
    ((fun item =>
        if Storefront.has_id productId item
        then {| Storefront.product := Storefront.product item;
                Storefront.quantity := f item |}
        else item) <$> items)
  = Storefront.getTotalItems items
    + match List.find (Storefront.has_id productId) items with
      | Some item => f item - Storefront.quantity item
      | None => 0
      end.
Proof.
  induction items as [|item items IH]; intros Hnd; [done|].
  inversion_clear Hnd as [|? ? Hnotin Hnd']. specialize (IH Hnd').
  rewrite fmap_cons, !getTotalItems_cons, IH. cbn [List.find].
  destruct (Storefront.has_id productId item) eqn:Hid; [|lia].
  apply String.eqb_eq in Hid. rewrite <- Hid in *.
  apply find_has_id_None in Hnotin. rewrite Hnotin. simpl. lia.
Qed.

(** X19. Adding a product to a cart that a session produced raises the
    number of pieces the header shows by the quantity added (1 when none
    is given), and the quantity held of that product by the same amount;
    the cart gets a new line only when it did not hold the product. The
    stock of the product is not consulted. *)
Theorem add_counts_pieces actions newProduct qty :
  let cart := Storefront.session actions in
  Storefront.getTotalItems (Storefront.addToCart newProduct qty cart)
  = Storefront.getTotalItems cart + default 1 qty
  ∧ Storefront.quantity_of (Storefront.id newProduct)
      (Storefront.addToCart newProduct qty cart)
    = Storefront.quantity_of (Storefront.id newProduct) cart + default 1 qty
  ∧ length (Storefront.addToCart newProduct qty cart)
    = (if bool_decide (Storefront.id newProduct ∈ Storefront.ids cart)
       then length cart else S (length cart)).
Proof.
  intros cart. pose proof (session_NoDup actions) as Hnd.
  fold cart in Hnd.
  unfold Storefront.addToCart, Storefront.quantity_of.
  destruct (List.find _ cart) as [existing|] eqn:Hfind.
  - pose proof (find_has_id_Some _ _ _ Hfind) as [Hid Hin].
    rewrite bool_decide_eq_true_2 by done.
    rewrite getTotalItems_requantify, Hfind by done.
    split; [lia|]. split; [|by rewrite length_fmap].
    clear Hnd Hin. induction cart as [|item cart IH]; [done|].
    cbn [List.find] in *. rewrite fmap_cons. cbn [List.find].
    destruct (Storefront.has_id (Storefront.id newProduct) item) eqn:E.
    + injection Hfind as <-. unfold Storefront.has_id. simpl.
      unfold Storefront.has_id in E. by rewrite E.
    + rewrite E. by apply IH.
  - pose proof Hfind as Hnotin. apply find_has_id_None in Hnotin.
    rewrite bool_decide_eq_false_2 by done.
    rewrite getTotalItems_app.
    split; [unfold Storefront.getTotalItems at 2; simpl; lia|].
    split; [|rewrite length_app; simpl; lia].
    clear Hnd Hnotin. induction cart as [|item cart IH].
    + simpl. unfold Storefront.has_id. simpl. by rewrite String.eqb_refl.
    + cbn [List.find] in *. rewrite <- app_comm_cons. cbn [List.find].
      destruct (Storefront.has_id (Storefront.id newProduct) item);
        [discriminate|]. by apply IH.
Qed.

Lemma find_removeFromCart_ne productId other items :
  other ≠ productId →
  List.find (Storefront.has_id other)
    (Storefront.removeFromCart productId items)
  = List.find (Storefront.has_id other) items.
Proof.
  intros Hne. induction items as [|item items IH]; [done|].
  simpl. destruct (Storefront.has_id productId item) eqn:E; simpl.
  - destruct (Storefront.has_id other item) eqn:E'; [|done].
    apply String.eqb_eq in E, E'. congruence.
  - by rewrite IH.
Qed.

(** X20. Removing a product leaves no line of it, leaves the quantity of
    every other product as it was, and undoes an addition of that product:
    removing after adding gives the same cart as removing alone. *)
Theorem remove_drops_product productId items :
  (productId ∉ Storefront.ids (Storefront.removeFromCart productId items))
  ∧ Storefront.quantity_of productId
      (Storefront.removeFromCart productId items) = 0
  ∧ (∀ other, other ≠ productId →
       Storefront.quantity_of other
         (Storefront.removeFromCart productId items)
       = Storefront.quantity_of other items)
  ∧ (∀ newProduct qty,
       Storefront.id newProduct = productId →
       Storefront.removeFromCart productId
         (Storefront.addToCart newProduct qty items)
       = Storefront.removeFromCart productId items).
Proof.
  assert (productId
          ∉ Storefront.ids (Storefront.removeFromCart productId items)) as Hgone.
  { rewrite ids_removeFromCart. intros Hin%list_elem_of_In.
    apply filter_In in Hin as [_ Hne].
    by rewrite String.eqb_refl in Hne. }
  split; [done|]. split; [|split].
  - unfold Storefront.quantity_of.
    apply find_has_id_None in Hgone. by rewrite Hgone.
  - intros other Hne. unfold Storefront.quantity_of.
    by rewrite find_removeFromCart_ne.
  - intros newProduct qty <-. unfold Storefront.addToCart.
    destruct (List.find _ items) as [existing|] eqn:Hfind.
    + clear Hfind Hgone. induction items as [|item items IH]; [done|].
      rewrite fmap_cons. unfold Storefront.removeFromCart in *.
      cbn [List.filter].
      destruct (Storefront.has_id (Storefront.id newProduct) item) eqn:E.
      * unfold Storefront.has_id in *. cbn [Storefront.product].
        rewrite E. cbn [negb]. apply IH.
      * rewrite E. cbn [negb]. by rewrite IH.
    + unfold Storefront.removeFromCart. rewrite List.filter_app. simpl.
      unfold Storefront.has_id at 2. simpl. rewrite String.eqb_refl. simpl.
      by rewrite app_nil_r.
Qed.

Lemma find_requantify productId other (f : Storefront.CartItem → Z) items :
  List.find (Storefront.has_id other)
    ((fun item =>
        if Storefront.has_id productId item
        then {| Storefront.product := Storefront.product item;
                Storefront.quantity := f item |}
        else item) <$> items)
  = (fun item =>
       if Storefront.has_id productId item
       then {| Storefront.product := Storefront.product item;
               Storefront.quantity := f item |}
       else item) <$> List.find (Storefront.has_id other) items.
Proof.
  induction items as [|item items IH]; [done|].
  rewrite fmap_cons. cbn [List.find].
  assert (Storefront.has_id other
            (if Storefront.has_id productId item
             then {| Storefront.product := Storefront.product item;
                     Storefront.quantity := f item |}
             else item)
          = Storefront.has_id other item) as ->
    by by destruct (Storefront.has_id productId item).
  by destruct (Storefront.has_id other item).
Qed.

(** X21. Updating a quantity to zero or less removes the product. Updating
    to a positive quantity keeps the lines and their order, sets (does not
    add to) the quantity of a product the cart holds, does not add a
    product it does not hold, and leaves every other product alone. *)
Theorem update_sets_quantity productId qty items :
  (qty ≤ 0 →
   Storefront.updateCartQuantity productId qty items
   = Storefront.removeFromCart productId items)
  ∧ (0 < qty →
     Storefront.ids (Storefront.updateCartQuantity productId qty items)
     = Storefront.ids items
     ∧ Storefront.quantity_of productId
         (Storefront.updateCartQuantity productId qty items)
       = (if bool_decide (productId ∈ Storefront.ids items) then qty else 0)
     ∧ ∀ other, other ≠ productId →
         Storefront.quantity_of other
           (Storefront.updateCartQuantity productId qty items)
         = Storefront.quantity_of other items).
Proof.
  unfold Storefront.updateCartQuantity. split.
  - intros H. by destruct (Z.leb_spec qty 0); [|lia].
  - intros H. destruct (Z.leb_spec qty 0); [lia|].
    split; [apply (ids_requantify (fun _ => qty))|].
    unfold Storefront.quantity_of. split.
    + rewrite (find_requantify productId productId (fun _ => qty)).
      destruct (List.find _ items) as [item|] eqn:Hfind; simpl.
      * pose proof (find_has_id_Some _ _ _ Hfind) as [Hid Hin].
        rewrite bool_decide_eq_true_2 by done.
        unfold Storefront.has_id. by rewrite Hid, String.eqb_refl.
      * apply find_has_id_None in Hfind.
        by rewrite bool_decide_eq_false_2.
    + intros other Hne.
      rewrite (find_requantify productId other (fun _ => qty)).
      destruct (List.find _ items) as [item|] eqn:Hfind; simpl; [|done].
      apply find_has_id_Some in Hfind as [Hid _].
      unfold Storefront.has_id. rewrite Hid.
      by destruct (String.eqb_spec other productId).
Qed.

(** Two products in the cart, the second one set to a single piece. *)
Lemma update_sets_quantity_witness :
  let cart := Storefront.session
                [Storefront.AddToCart Storefront.pumpkin None;
                 Storefront.AddToCart Storefront.mask (Some 2)] in
  Storefront.quantity_of "prod-002"
    (Storefront.updateCartQuantity "prod-002" 1 cart) = 1
  ∧ Storefront.quantity_of "prod-001"
      (Storefront.updateCartQuantity "prod-002" 1 cart) = 1.
Proof.
  intros cart.
  destruct (update_sets_quantity "prod-002" 1 cart) as [_ H].
  destruct (H ltac:(lia)) as (_ & H1 & H2).
  split; [exact H1 | exact (H2 "prod-001" ltac:(discriminate))].
Defined.

Lemma act_positive items a :
  Storefront.adds_pieces a →
  Forall (fun item => 0 < Storefront.quantity item) items →
  Forall (fun item => 0 < Storefront.quantity item) (Storefront.act items a).
Proof.
  intros Ha Hpos. destruct a as [p q | pid | pid q | ]; simpl.
  - assert (0 < default 1 q) as Hq by (destruct q; simpl in *; lia).
    unfold Storefront.addToCart.
    destruct (List.find _ items).
    + apply Forall_fmap. eapply Forall_impl; [exact Hpos|].
      intros item Hitem. simpl in *.
      destruct (Storefront.has_id _ item); simpl; lia.
    + apply Forall_app. split; [done|]. by constructor.
  - apply Forall_forall. intros item Hin%list_elem_of_In.
    apply filter_In in Hin as [Hin%list_elem_of_In _].
    by eapply Forall_forall in Hpos.
  - unfold Storefront.updateCartQuantity.
    destruct (Z.leb_spec q 0).
    + apply Forall_forall. intros item Hin%list_elem_of_In.
      apply filter_In in Hin as [Hin%list_elem_of_In _].
      by eapply Forall_forall in Hpos.
    + apply Forall_fmap. eapply Forall_impl; [exact Hpos|].
      intros item Hitem. simpl in *.
      destruct (Storefront.has_id _ item); simpl; lia.
  - constructor.
Qed.

Lemma fold_act_positive actions items :
  Forall Storefront.adds_pieces actions →
  Forall (fun item => 0 < Storefront.quantity item) items →
  Forall (fun item => 0 < Storefront.quantity item)
    (fold_left Storefront.act actions items).
Proof.
  revert items. induction actions as [|a actions IH]; intros items Ha Hi;
    [done|].
  inversion_clear Ha. simpl. apply IH; [done|]. by apply act_positive.
Qed.

(** X22. In a session in which every addition adds at least one piece,
    every line of the cart holds at least one piece, the number of pieces
    the header shows is at least the number of lines, and it is zero
    exactly when the cart is empty. *)
Theorem cart_badge_counts_pieces actions :
  Forall Storefront.adds_pieces actions →
  let cart := Storefront.session actions in
  Forall (fun item => 1 ≤ Storefront.quantity item) cart
  ∧ Z.of_nat (length cart) ≤ Storefront.getTotalItems cart
  ∧ (Storefront.getTotalItems cart = 0 ↔ cart = []).
Proof.
  intros Ha cart.
  assert (Forall (fun item => 0 < Storefront.quantity item) cart) as Hpos
    by (apply fold_act_positive; [done | constructor]).
  clearbody cart.
  assert (Z.of_nat (length cart) ≤ Storefront.getTotalItems cart) as Hlen.
  { induction Hpos as [|item items Hitem _ IH]; [done|].
    rewrite getTotalItems_cons. simpl length. lia. }
  split; [eapply Forall_impl; [exact Hpos | simpl; lia]|].
  split; [done|]. split.
  - intros H0. destruct cart; [done|]. simpl length in Hlen. lia.
  - by intros ->.
Qed.

(** Two pumpkins added and then set to zero: the cart is empty again. *)
Lemma cart_badge_counts_pieces_witness :
  Storefront.getTotalItems
    (Storefront.session
       [Storefront.AddToCart Storefront.pumpkin None;
        Storefront.AddToCart Storefront.pumpkin None;
        Storefront.UpdateCartQuantity "prod-001" 0]) = 0.
Proof.
  apply (cart_badge_counts_pieces
           [Storefront.AddToCart Storefront.pumpkin None;
            Storefront.AddToCart Storefront.pumpkin None;
            Storefront.UpdateCartQuantity "prod-001" 0]).
  - repeat constructor.
  - reflexivity.
Defined.
